(** * Swat: time trigger, output target and base action

    A shallow embedding of [scheduler.go], [targeter.go], [util.go] and the
    base action of the [profile] package, with the properties of the
    schedule resolution, of the stop handshake and of the output target.

    Instants and durations are integers counting nanoseconds, as in Go's
    [time] package.  A channel is its capacity and its buffer; goroutines are
    program counters stepped by an explicit interleaving. *)

From Stdlib Require Import ZArith Lia Bool.
From stdpp Require Import base list strings.

Open Scope Z_scope.

(** ** Go's [time] package, as far as the scheduler uses it *)
Module GoTime.

(** [time.Duration] is an [int64] count of nanoseconds. *)
Definition Duration := Z.

(** [time.Time]: nanoseconds since the zero instant (January 1, year 1,
    00:00:00 UTC), the instant for which [IsZero] answers true. *)
Definition Time := Z.

Definition minDuration : Duration := - 2 ^ 63.
Definition maxDuration : Duration := 2 ^ 63 - 1.

Definition Nanosecond : Duration := 1.
Definition Millisecond : Duration := 1000000.
Definition Second : Duration := 1000000000.

(** Seconds between the zero instant and the Unix epoch. *)
Definition unixToInternal : Z := 62135596800.

Definition IsZero (t : Time) : bool := t =? 0.

Definition Add (t : Time) (d : Duration) : Time := t + d.

(** [t.Sub(u)] saturates at the largest and the smallest duration. *)
Definition Sub (t u : Time) : Duration :=
  if maxDuration <? t - u then maxDuration
  else if t - u <? minDuration then minDuration
  else t - u.

Definition Before (t u : Time) : bool := t <? u.

Definition Unix (sec nsec : Z) : Time := (sec + unixToInternal) * Second + nsec.

End GoTime.
Import GoTime.

(** ** Errors *)

(** The values behind Go's [error] interface that this package produces:
    [errors.New(msg)] and the [*PathError] of a failed [os.Create]. *)
Inductive error : Type :=
  | ErrorString (msg : string)
  | PathError (op : string) (path : string).

(** ** Channels of booleans *)
Module Chan.

(** A channel value: [nil] (the zero value of [chan bool]), or a channel
    made with a capacity, holding its buffered elements oldest first. *)
Inductive chan : Type :=
  | NilChan
  | Buffered (cap : nat) (buf : list bool).

(** [make(chan bool, n)] *)
Definition make (n : nat) : chan := Buffered n [].

(** A send proceeds when the buffer has room; on a nil channel it blocks
    forever.  [None] is "cannot proceed now". *)
Definition send (c : chan) (v : bool) : option chan :=
  match c with
  | NilChan => None
  | Buffered cap buf =>
      if (List.length buf <? cap)%nat then Some (Buffered cap (buf ++ [v])) else None
  end.

(** A receive proceeds when the buffer holds an element; on a nil channel
    it blocks forever. *)
Definition recv (c : chan) : option (bool * chan) :=
  match c with
  | NilChan => None
  | Buffered cap [] => None
  | Buffered cap (v :: buf) => Some (v, Buffered cap buf)
  end.

End Chan.
Import Chan.

(** ** The scheduler's configuration (scheduler.go) *)

(** The struct of scheduler.go.  The callback [fn] is not a field of the
    model: each invocation of [s.fn()] is recorded, with the instant of the
    call, in the [fired] log of the running system below (the callback of
    the repository's own scheduler test does exactly this). *)
Record Scheduler : Type := mkScheduler {
  at_ : Time;
  after : Duration;
  every : Duration;
  length : Duration;
  until : Time;
  closer : chan
}.

(** [newScheduler(fn)]: zero values, and a closer of capacity one. *)
Definition newScheduler : Scheduler :=
  {| at_ := 0; after := 0; every := 0; length := 0; until := 0;
     closer := Chan.make 1 |}.

(** [new(scheduler)]: the zero value of the struct, its closer is nil. *)
Definition zeroScheduler : Scheduler :=
  {| at_ := 0; after := 0; every := 0; length := 0; until := 0;
     closer := NilChan |}.

Definition After (d : Duration) (s : Scheduler) : Scheduler :=
  {| at_ := at_ s; after := d; every := every s; length := length s;
     until := until s; closer := closer s |}.

Definition Every (d : Duration) (s : Scheduler) : Scheduler :=
  {| at_ := at_ s; after := after s; every := d; length := length s;
     until := until s; closer := closer s |}.

Definition At (t : Time) (s : Scheduler) : Scheduler :=
  {| at_ := t; after := after s; every := every s; length := length s;
     until := until s; closer := closer s |}.

Definition For (d : Duration) (s : Scheduler) : Scheduler :=
  {| at_ := at_ s; after := after s; every := every s; length := d;
     until := until s; closer := closer s |}.

Definition Until (t : Time) (s : Scheduler) : Scheduler :=
  {| at_ := at_ s; after := after s; every := every s; length := length s;
     until := t; closer := closer s |}.

Definition with_closer (c : chan) (s : Scheduler) : Scheduler :=
  {| at_ := at_ s; after := after s; every := every s; length := length s;
     until := until s; closer := c |}.

Definition ErrAtAfter : error :=
  ErrorString "Swat Error: Using both 'At' and 'After' will lead to unexepected results.".
Definition ErrUntilFor : error :=
  ErrorString "Swat Error: Using both 'Until' and 'For' will lead to unexepected results.".
Definition ErrEveryRequired : error :=
  ErrorString "Swat Error: 'Every' is required when using 'Until' or 'For'.".

(** [validate]: [None] is Go's [nil] error. *)
Definition validate (s : Scheduler) : option error :=
  if negb (IsZero (at_ s)) && (0 <? after s) then Some ErrAtAfter
  else if negb (IsZero (until s)) && (0 <? length s) then Some ErrUntilFor
  else if ((0 <? length s) || negb (IsZero (until s))) && (every s =? 0)
       then Some ErrEveryRequired
  else None.

(** [resolveSleep], at clock reading [now]. *)
Definition resolveSleep (s : Scheduler) (now : Time) : Duration :=
  if 0 <? after s then after s
  else if negb (IsZero (at_ s)) then Sub (at_ s) now
  else 0.

Definition isActivated (s : Scheduler) : bool :=
  (0 <? after s) || negb (IsZero (at_ s)) || (0 <? every s).

(** The instant of the fallback of [getUntil]: [time.Unix(1<<62, 0)]. *)
Definition farFuture : Time := Unix (2 ^ 62) 0.

(** [getUntil], at clock reading [now]. *)
Definition getUntil (s : Scheduler) (now : Time) : Time :=
  if 0 <? length s then Add now (length s)
  else if negb (IsZero (until s)) then until s
  else farFuture.

(** ** What the specification calls a set option *)

(** An instant is set when it is not the zero instant; [After] and [For]
    are set when their duration is positive; [Every] is set for validation
    when its duration is not zero. *)
Definition spec_at_set (s : Scheduler) : Prop := at_ s <> 0.
Definition spec_until_set (s : Scheduler) : Prop := until s <> 0.
Definition spec_after_set (s : Scheduler) : Prop := 0 < after s.
Definition spec_for_set (s : Scheduler) : Prop := 0 < length s.
Definition spec_every_set (s : Scheduler) : Prop := every s <> 0.

(** The three rejected combinations, in the specification's words. *)
Definition spec_rejected (s : Scheduler) : Prop :=
  (spec_at_set s /\ spec_after_set s)
  \/ (spec_until_set s /\ spec_for_set s)
  \/ ((spec_for_set s \/ spec_until_set s) /\ ~ spec_every_set s).

(** ** The worker of [start] and the stopper of [end] as goroutines *)

(** Program points of [start].  A select remembers the deadline of the timer
    that [time.After] armed when the select was entered. *)
Inductive wpc : Type :=
  | WEntry                                (* the test of isActivated *)
  | WSelect1 (deadline : Time)            (* the select of the initial wait *)
  | WLoop (cutoff : Time)                 (* the loop condition, [until] computed *)
  | WSelect2 (cutoff deadline : Time)     (* the select of the interval wait *)
  | WDefer                                (* the deferred [s.closer <- true] *)
  | WDone.                                (* the goroutine has exited *)

(** Program points of [end]. *)
Inductive epc : Type :=
  | EIdle        (* [end] has not been called *)
  | ESelect      (* at its select *)
  | EWait        (* the send case was taken: at [<-s.closer] *)
  | EDone.       (* [end] has returned *)

(** The scheduler shared by the two goroutines, the clock, the two program
    counters and the instants at which the callback was invoked, oldest
    first. *)
Record System : Type := mkSystem {
  sched : Scheduler;
  clock : Time;
  worker : wpc;
  stopper : epc;
  fired : list Time
}.

(** [go s.start()] at clock reading [now]. *)
Definition go_start (s : Scheduler) (now : Time) : System :=
  {| sched := s; clock := now; worker := WEntry; stopper := EIdle; fired := [] |}.

Definition set_worker (w : wpc) (σ : System) : System :=
  {| sched := sched σ; clock := clock σ; worker := w; stopper := stopper σ;
     fired := fired σ |}.

Definition set_stopper (e : epc) (σ : System) : System :=
  {| sched := sched σ; clock := clock σ; worker := worker σ; stopper := e;
     fired := fired σ |}.

Definition set_closer (c : chan) (σ : System) : System :=
  {| sched := with_closer c (sched σ); clock := clock σ; worker := worker σ;
     stopper := stopper σ; fired := fired σ |}.

(** [s.fn()]: the invocation is logged with the clock reading. *)
Definition call_fn (σ : System) : System :=
  {| sched := sched σ; clock := clock σ; worker := worker σ;
     stopper := stopper σ; fired := fired σ ++ [clock σ] |}.

Definition advance (d : Duration) (σ : System) : System :=
  {| sched := sched σ; clock := clock σ + d; worker := worker σ;
     stopper := stopper σ; fired := fired σ |}.

(** One move of the interleaving. *)
Inductive label : Type :=
  | W_run                 (* the worker runs up to its next channel operation *)
  | W_closer              (* the worker's select takes [<-s.closer] *)
  | W_timer               (* the worker's select takes [<-time.After(..)] *)
  | E_call                (* [end] is called *)
  | E_recv                (* the stopper receives from [s.closer] *)
  | E_send                (* the stopper's select takes [s.closer <- true] *)
  | Tick (d : Duration).  (* time passes *)

(** The moves of [start].  A select case that cannot proceed, and the
    deferred send on a full or nil channel, give [None]: the goroutine stays
    blocked there. *)
Definition worker_step (l : label) (σ : System) : option System :=
  let s := sched σ in
  match worker σ, l with
  | WEntry, W_run =>
      if negb (isActivated s) then Some (set_worker WDefer σ)
      else Some (set_worker (WSelect1 (Add (clock σ) (resolveSleep s (clock σ)))) σ)
  | WSelect1 _, W_closer =>
      match recv (closer s) with
      | Some (_, c) => Some (set_worker WDefer (set_closer c σ))
      | None => None
      end
  | WSelect1 deadline, W_timer =>
      if deadline <=? clock σ
      then Some (set_worker (WLoop (getUntil s (clock σ))) σ)
      else None
  | WLoop cutoff, W_run =>
      if Before (clock σ) cutoff then
        if every s =? 0 then Some (set_worker WDefer (call_fn σ))
        else Some (set_worker (WSelect2 cutoff (Add (clock σ) (every s))) (call_fn σ))
      else Some (set_worker WDefer σ)
  | WSelect2 _ _, W_closer =>
      match recv (closer s) with
      | Some (_, c) => Some (set_worker WDefer (set_closer c σ))
      | None => None
      end
  | WSelect2 cutoff deadline, W_timer =>
      if deadline <=? clock σ then Some (set_worker (WLoop cutoff) σ) else None
  | WDefer, W_run =>
      match send (closer s) true with
      | Some c => Some (set_worker WDone (set_closer c σ))
      | None => None
      end
  | _, _ => None
  end.

(** The moves of [end]. *)
Definition stopper_step (l : label) (σ : System) : option System :=
  let s := sched σ in
  match stopper σ, l with
  | EIdle, E_call | EDone, E_call => Some (set_stopper ESelect σ)
  | ESelect, E_recv =>
      match recv (closer s) with
      | Some (_, c) => Some (set_stopper EDone (set_closer c σ))
      | None => None
      end
  | ESelect, E_send =>
      match send (closer s) true with
      | Some c => Some (set_stopper EWait (set_closer c σ))
      | None => None
      end
  | EWait, E_recv =>
      match recv (closer s) with
      | Some (_, c) => Some (set_stopper EDone (set_closer c σ))
      | None => None
      end
  | _, _ => None
  end.

Definition step (l : label) (σ : System) : option System :=
  match l with
  | W_run | W_closer | W_timer => worker_step l σ
  | E_call | E_recv | E_send => stopper_step l σ
  | Tick d => if 0 <? d then Some (advance d σ) else None
  end.

(** A schedule of moves; [None] when one of them cannot be taken. *)
Fixpoint run (ls : list label) (σ : System) : option System :=
  match ls with
  | [] => Some σ
  | l :: ls' =>
      match step l σ with
      | Some σ' => run ls' σ'
      | None => None
      end
  end.

Definition exited (σ : System) : bool :=
  match worker σ with WDone => true | _ => false end.

Definition ended (σ : System) : bool :=
  match stopper σ with EDone => true | _ => false end.

(** ** The worker alone on an ideal clock *)

(** No stop request is made, statements take no time, and a timer is
    delivered at its deadline exactly. *)
Definition ideal_label (σ : System) : option label :=
  match worker σ with
  | WEntry | WLoop _ | WDefer => Some W_run
  | WSelect1 deadline | WSelect2 _ deadline =>
      if clock σ <? deadline then Some (Tick (deadline - clock σ)) else Some W_timer
  | WDone => None
  end.

Inductive outcome : Type :=
  | Finished (σ : System)    (* the worker has exited *)
  | Blocked (σ : System)     (* the worker cannot move *)
  | OutOfFuel.

Fixpoint ideal_run (fuel : nat) (σ : System) : outcome :=
  match ideal_label σ with
  | None => Finished σ
  | Some l =>
      match fuel with
      | O => OutOfFuel
      | S fuel' =>
          match step l σ with
          | Some σ' => ideal_run fuel' σ'
          | None => Blocked σ
          end
      end
  end.

(** The instants [start + k * interval] for [k < n], oldest first. *)
Fixpoint firings (start interval : Z) (n : nat) : list Time :=
  match n with
  | O => []
  | S n' => start :: firings (start + interval) interval n'
  end.

(** ** The output target (targeter.go) *)
Module Target.

(** An [*os.File]: [Close] releases the descriptor of an open file, and
    fails with [os.ErrClosed], changing nothing, on a file that was closed
    before.  [releases] counts the times the descriptor was released. *)
Inductive FileStatus : Type := Open | Closed.

Record File : Type := mkFile {
  path : string;
  status : FileStatus;
  releases : nat
}.

(** The environment of [os.Create]: the paths at which a file can be
    created, and the files made so far.  A file is named by its index. *)
Record FS : Type := mkFS {
  creatable : string -> bool;
  files : list File
}.

Abbreviation handle := nat.

Definition ErrClosed : error := ErrorString "file already closed".

(** [os.Create(name)]: a new open file, or a [*PathError]. *)
Definition os_Create (name : string) (fs : FS) : (handle + error) * FS :=
  if creatable fs name
  then (inl (List.length (files fs)),
        {| creatable := creatable fs;
           files := files fs ++ [ {| path := name; status := Open; releases := 0 |} ] |})
  else (inr (PathError "open" name), fs).

(** [f.Close()] *)
Definition os_Close (h : handle) (fs : FS) : option error * FS :=
  match files fs !! h with
  | Some f =>
      match status f with
      | Open =>
          (None,
           {| creatable := creatable fs;
              files := <[ h := {| path := path f; status := Closed;
                                  releases := S (releases f) |} ]> (files fs) |})
      | Closed => (Some ErrClosed, fs)
      end
  | None => (Some ErrClosed, fs)
  end.

(** An [io.Writer]: one handed in by the caller, or a file of [ToFile]. *)
Inductive Writer : Type :=
  | ExternalWriter (id : nat)
  | FileWriter (h : handle).

(** The struct; [None] is a nil interface value. *)
Record targeter : Type := mkTargeter {
  writer : option Writer;
  closer : option handle
}.

(** [new(targeter)] *)
Definition zeroTargeter : targeter := {| writer := None; closer := None |}.

Definition ToWriter (w : Writer) (t : targeter) : targeter :=
  {| writer := Some w; closer := closer t |}.

Definition ToFile (file : string) (t : targeter) (fs : FS)
  : option error * targeter * FS :=
  match os_Create file fs with
  | (inr err, fs') => (Some err, t, fs')
  | (inl f, fs') =>
      (None, {| writer := Some (FileWriter f); closer := Some f |}, fs')
  end.

(** [end]: the result of [Close] is dropped. *)
Definition end_ (t : targeter) (fs : FS) : FS :=
  match closer t with
  | Some f => snd (os_Close f fs)
  | None => fs
  end.

(** [end] called [n] times. *)
Fixpoint end_times (n : nat) (t : targeter) (fs : FS) : FS :=
  match n with
  | O => fs
  | S n' => end_times n' t (end_ t fs)
  end.

Definition file_status (fs : FS) (h : handle) : option FileStatus :=
  status <$> files fs !! h.

Definition file_releases (fs : FS) (h : handle) : option nat :=
  releases <$> files fs !! h.

End Target.

(** ** The signal trigger's state (signaler.go) *)
Module Signal.

Record signaler : Type := mkSignaler {
  signals : list nat;
  closer : chan
}.

(** [new(signaler)] *)
Definition zeroSignaler : signaler := {| signals := []; closer := NilChan |}.

Definition OnSignal (sigs : list nat) (s : signaler) : signaler :=
  {| signals := sigs; closer := closer s |}.

End Signal.

(** ** [parallel] (util.go) *)

(** The loop of [parallel] over its functions: one [wg.Add(1)] and one
    [go fn()] each.  The result is the counter of the wait group and the
    goroutines launched.  No launched goroutine calls [wg.Done]: the
    functions are started bare, so the counter keeps this value. *)
Definition parallel_launch {T : Type} (fns : list T) : nat * list T :=
  fold_left (fun acc fn => (S (fst acc), snd acc ++ [fn])) fns (0%nat, []).

(** [wg.Wait()] returns only at counter zero. *)
Definition Wait_returns (counter : nat) : bool := (counter =? 0)%nat.

Definition parallel_returns {T : Type} (fns : list T) : bool :=
  Wait_returns (fst (parallel_launch fns)).

(** ** The base action *)
Module Action.

Record BaseAction : Type := mkBaseAction {
  scheduler : Scheduler;
  targeter : Target.targeter;
  signaler : Signal.signaler;
  lastErr : option error
}.

(** [NewAction(fn)]: the three parts are made with [new]. *)
Definition NewAction : BaseAction :=
  {| scheduler := zeroScheduler;
     targeter := Target.zeroTargeter;
     signaler := Signal.zeroSignaler;
     lastErr := None |}.

Definition with_scheduler (s : Scheduler) (b : BaseAction) : BaseAction :=
  {| scheduler := s; targeter := targeter b; signaler := signaler b;
     lastErr := lastErr b |}.

Definition After (d : Duration) (b : BaseAction) : BaseAction :=
  with_scheduler (After d (scheduler b)) b.
Definition At (t : Time) (b : BaseAction) : BaseAction :=
  with_scheduler (At t (scheduler b)) b.
Definition Every (d : Duration) (b : BaseAction) : BaseAction :=
  with_scheduler (Every d (scheduler b)) b.
Definition For (d : Duration) (b : BaseAction) : BaseAction :=
  with_scheduler (For d (scheduler b)) b.
Definition Until (t : Time) (b : BaseAction) : BaseAction :=
  with_scheduler (Until t (scheduler b)) b.

Definition OnSignal (sigs : list nat) (b : BaseAction) : BaseAction :=
  {| scheduler := scheduler b; targeter := targeter b;
     signaler := Signal.OnSignal sigs (signaler b); lastErr := lastErr b |}.

Definition ToWriter (w : Target.Writer) (b : BaseAction) : BaseAction :=
  {| scheduler := scheduler b; targeter := Target.ToWriter w (targeter b);
     signaler := signaler b; lastErr := lastErr b |}.

(** [ToFile]: tried only while no error is recorded. *)
Definition ToFile (f : string) (b : BaseAction) (fs : Target.FS)
  : BaseAction * Target.FS :=
  match lastErr b with
  | None =>
      match Target.ToFile f (targeter b) fs with
      | (err, t, fs') =>
          ({| scheduler := scheduler b; targeter := t;
              signaler := signaler b; lastErr := err |}, fs')
      end
  | Some _ => (b, fs)
  end.

(** The goroutines that [Start] launches. *)
Inductive goroutine : Type :=
  | SchedulerStart (s : Scheduler)
  | SignalerStart (s : Signal.signaler).

(** [Start]: the error returned and the goroutines launched. *)
Definition Start (b : BaseAction) : option error * list goroutine :=
  match lastErr b with
  | Some err => (Some err, [])
  | None =>
      match validate (scheduler b) with
      | Some err => (Some err, [])
      | None =>
          (None, [SchedulerStart (scheduler b); SignalerStart (signaler b)])
      end
  end.

(** The three functions that [End] hands to [parallel]. *)
Inductive end_task : Type := SignalerEnd | SchedulerEnd | TargeterEnd.

Definition End_tasks : list end_task := [SignalerEnd; SchedulerEnd; TargeterEnd].

(** [End] returns when its call of [parallel] does. *)
Definition End_returns (b : BaseAction) : bool := parallel_returns End_tasks.

(** A call of the fluent configuration interface. *)
Inductive setup : Type :=
  | SetAfter (d : Duration)
  | SetAt (t : Time)
  | SetEvery (d : Duration)
  | SetFor (d : Duration)
  | SetUntil (t : Time)
  | SetOnSignal (sigs : list nat)
  | SetToWriter (w : Target.Writer)
  | SetToFile (f : string).

Definition apply_setup (st : BaseAction * Target.FS) (c : setup)
  : BaseAction * Target.FS :=
  let (b, fs) := st in
  match c with
  | SetAfter d => (After d b, fs)
  | SetAt t => (At t b, fs)
  | SetEvery d => (Every d b, fs)
  | SetFor d => (For d b, fs)
  | SetUntil t => (Until t b, fs)
  | SetOnSignal sigs => (OnSignal sigs b, fs)
  | SetToWriter w => (ToWriter w b, fs)
  | SetToFile f => ToFile f b fs
  end.

(** A chain of fluent calls, first call first. *)
Definition configure (calls : list setup) (st : BaseAction * Target.FS)
  : BaseAction * Target.FS :=
  fold_left apply_setup calls st.

(** In the specification's words: the configuration error recorded is the
    one of the first [ToFile] of the chain whose file cannot be created. *)
Fixpoint spec_first_error (can_create : string -> bool) (calls : list setup)
  : option error :=
  match calls with
  | [] => None
  | SetToFile f :: rest =>
      if can_create f then spec_first_error can_create rest
      else Some (PathError "open" f)
  | _ :: rest => spec_first_error can_create rest
  end.

End Action.

(** ** Invariants and counts used by the proofs *)


(** What holds along every run on a nil closer. *)
Definition nil_inv (σ : System) : Prop :=
  closer (sched σ) = NilChan /\ ended σ = false /\ exited σ = false.

(** The number of firings of a bounded repetition. *)
Definition firing_count (f i : Duration) : nat := Z.to_nat ((f + i - 1) / i).

(** ** Further definitions: the handshake slot, spacing, the signal
    trigger's run and the host *)

(** The slot of a closer of capacity one against the two program counters:
    a marker in the slot while the worker has not exited is the stopper's
    pending request, and a stopper waiting on an empty slot means that the
    worker has taken the request and stands at its deferred push. *)
Definition slot_ok (σ : System) : bool :=
  match closer (sched σ) with
  | Buffered 1 [] =>
      match stopper σ, worker σ with
      | EWait, WDefer => true
      | EWait, _ => false
      | _, _ => true
      end
  | Buffered 1 [true] =>
      match worker σ, stopper σ with
      | WDone, _ => true
      | _, EWait => true
      | _, _ => false
      end
  | _ => false
  end.

Definition is_tick (l : label) : bool :=
  match l with Tick _ => true | _ => false end.

(** Consecutive instants of a log are at least [gap] apart. *)
Fixpoint spaced (gap : Z) (l : list Time) : Prop :=
  match l with
  | [] => True
  | x :: rest =>
      match rest with
      | [] => True
      | y :: _ => x + gap <= y /\ spaced gap rest
      end
  end.

(** The earliest instant at which a schedule started at [now] may fire. *)
Definition earliest (s : Scheduler) (now : Time) : Time :=
  if 0 <? after s then now + after s
  else if negb (IsZero (at_ s)) then Z.max now (at_ s)
  else now.

(** The number of firings of [Every i] with [Until u], started at [now]. *)
Definition until_count (now u : Time) (i : Duration) : nat :=
  if u <=? now then 0%nat else firing_count (u - now) i.

(** The schedule on the ideal clock that waits out the initial timer and
    then goes [n] times around the loop of a negative interval. *)
Definition spin (d : Duration) (n : nat) : list label :=
  [W_run; Tick d; W_timer] ++ concat (replicate n [W_run; W_timer]).

(** The scheduler setters of a chain of fluent calls. *)
Definition sched_setup (s : Scheduler) (c : Action.setup) : Scheduler :=
  match c with
  | Action.SetAfter d => After d s
  | Action.SetAt t => At t s
  | Action.SetEvery d => Every d s
  | Action.SetFor d => For d s
  | Action.SetUntil t => Until t s
  | _ => s
  end.

(** What holds along every run, for the spacing of the firings. *)
Definition spacing_inv (i : Duration) (σ : System) : Prop :=
  every (sched σ) = i
  /\ spaced i (fired σ)
  /\ match worker σ with
     | WEntry | WSelect1 _ => fired σ = []
     | WLoop _ => forall y, last (fired σ) = Some y -> y + i <= clock σ
     | WSelect2 _ deadline =>
         forall y, last (fired σ) = Some y -> y + i <= deadline
     | WDefer | WDone => True
     end.

(** What holds along every run, for the earliest firing. *)
Definition early_inv (s : Scheduler) (now : Time) (σ : System) : Prop :=
  at_ (sched σ) = at_ s /\ after (sched σ) = after s
  /\ now <= clock σ
  /\ Forall (fun x => earliest s now <= x) (fired σ)
  /\ match worker σ with
     | WEntry => True
     | WSelect1 deadline => earliest s now <= Z.max deadline (clock σ)
     | WLoop _ | WSelect2 _ _ => earliest s now <= clock σ
     | WDefer | WDone => True
     end.

(** What holds along every run of a schedule without an interval. *)
Definition one_shot_inv (σ : System) : Prop :=
  every (sched σ) = 0
  /\ match worker σ with
     | WEntry | WSelect1 _ | WLoop _ => fired σ = []
     | WSelect2 _ _ => False
     | WDefer | WDone => (List.length (fired σ) <= 1)%nat
     end.


(** ** The run of the signal trigger (signaler.go) *)
Module SignalRun.

(** Program points of [signaler.start]. *)
Inductive spc : Type :=
  | SEntry      (* the test of [len(s.signals)] *)
  | SLoop       (* the select of the loop; [signal.Notify] has been called *)
  | SDefer      (* the deferred [s.closer <- true] *)
  | SDone.

(** The signaler shared by worker and stopper; [pending] is the buffer of
    the channel of capacity one handed to [signal.Notify]; [registered]
    tells whether [Notify] was called; [calls] counts the invocations of
    the callback and [arrived] logs the signals raised, oldest first. *)
Record SigSystem : Type := mkSigSystem {
  sig : Signal.signaler;
  pending : list nat;
  registered : bool;
  sworker : spc;
  sstopper : epc;
  calls : nat;
  arrived : list nat
}.

(** [go s.start()] *)
Definition go_start (s : Signal.signaler) : SigSystem :=
  {| sig := s; pending := []; registered := false; sworker := SEntry;
     sstopper := EIdle; calls := 0; arrived := [] |}.

Inductive slabel : Type :=
  | S_run                (* the worker runs to its next channel operation *)
  | S_closer             (* the worker's select takes [<-s.closer] *)
  | S_signal             (* the worker's select takes [<-ch] and calls [fn] *)
  | SE_call              (* [end] is called *)
  | SE_recv              (* the stopper receives from [s.closer] *)
  | SE_send              (* the stopper's select takes [s.closer <- true] *)
  | Arrive (sg : nat).   (* the process is sent the signal [sg] *)

Definition with_closer (c : chan) (s : Signal.signaler) : Signal.signaler :=
  {| Signal.signals := Signal.signals s; Signal.closer := c |}.

Definition set_sig (g : Signal.signaler) (σ : SigSystem) : SigSystem :=
  {| sig := g; pending := pending σ; registered := registered σ;
     sworker := sworker σ; sstopper := sstopper σ; calls := calls σ;
     arrived := arrived σ |}.

Definition set_sworker (w : spc) (σ : SigSystem) : SigSystem :=
  {| sig := sig σ; pending := pending σ; registered := registered σ;
     sworker := w; sstopper := sstopper σ; calls := calls σ;
     arrived := arrived σ |}.

Definition set_sstopper (e : epc) (σ : SigSystem) : SigSystem :=
  {| sig := sig σ; pending := pending σ; registered := registered σ;
     sworker := sworker σ; sstopper := e; calls := calls σ;
     arrived := arrived σ |}.

Definition listens (s : Signal.signaler) (sg : nat) : bool :=
  existsb (Nat.eqb sg) (Signal.signals s).

(** The moves of [start]. *)
Definition worker_step (l : slabel) (σ : SigSystem) : option SigSystem :=
  match sworker σ, l with
  | SEntry, S_run =>
      if (List.length (Signal.signals (sig σ)) =? 0)%nat
      then Some (set_sworker SDefer σ)
      else Some {| sig := sig σ; pending := pending σ; registered := true;
                   sworker := SLoop; sstopper := sstopper σ; calls := calls σ;
                   arrived := arrived σ |}
  | SLoop, S_closer =>
      match recv (Signal.closer (sig σ)) with
      | Some (_, c) => Some (set_sworker SDefer (set_sig (with_closer c (sig σ)) σ))
      | None => None
      end
  | SLoop, S_signal =>
      match pending σ with
      | _ :: rest =>
          Some {| sig := sig σ; pending := rest; registered := registered σ;
                  sworker := SLoop; sstopper := sstopper σ; calls := S (calls σ);
                  arrived := arrived σ |}
      | [] => None
      end
  | SDefer, S_run =>
      match send (Signal.closer (sig σ)) true with
      | Some c => Some (set_sworker SDone (set_sig (with_closer c (sig σ)) σ))
      | None => None
      end
  | _, _ => None
  end.

(** The moves of [end], the same code as the scheduler's. *)
Definition stopper_step (l : slabel) (σ : SigSystem) : option SigSystem :=
  match sstopper σ, l with
  | EIdle, SE_call | EDone, SE_call => Some (set_sstopper ESelect σ)
  | ESelect, SE_recv =>
      match recv (Signal.closer (sig σ)) with
      | Some (_, c) => Some (set_sstopper EDone (set_sig (with_closer c (sig σ)) σ))
      | None => None
      end
  | ESelect, SE_send =>
      match send (Signal.closer (sig σ)) true with
      | Some c => Some (set_sstopper EWait (set_sig (with_closer c (sig σ)) σ))
      | None => None
      end
  | EWait, SE_recv =>
      match recv (Signal.closer (sig σ)) with
      | Some (_, c) => Some (set_sstopper EDone (set_sig (with_closer c (sig σ)) σ))
      | None => None
      end
  | _, _ => None
  end.

(** A signal raised: the package [os/signal] puts it in the channel when the
    channel was registered for it and has room, and drops it otherwise. *)
Definition arrive (sg : nat) (σ : SigSystem) : SigSystem :=
  {| sig := sig σ;
     pending := if registered σ && listens (sig σ) sg
                   && (List.length (pending σ) <? 1)%nat
                then pending σ ++ [sg] else pending σ;
     registered := registered σ; sworker := sworker σ; sstopper := sstopper σ;
     calls := calls σ; arrived := arrived σ ++ [sg] |}.

Definition step (l : slabel) (σ : SigSystem) : option SigSystem :=
  match l with
  | S_run | S_closer | S_signal => worker_step l σ
  | SE_call | SE_recv | SE_send => stopper_step l σ
  | Arrive sg => Some (arrive sg σ)
  end.

Fixpoint run (ls : list slabel) (σ : SigSystem) : option SigSystem :=
  match ls with
  | [] => Some σ
  | l :: ls' =>
      match step l σ with
      | Some σ' => run ls' σ'
      | None => None
      end
  end.

(** The raised signals that the signaler listens for. *)
Definition heard (σ : SigSystem) : list nat :=
  List.filter (listens (sig σ)) (arrived σ).

Definition sig_inv (σ : SigSystem) : Prop :=
  (calls σ + List.length (pending σ) <= List.length (heard σ))%nat
  /\ (registered σ = false -> pending σ = [] /\ calls σ = 0%nat).

Definition sig_nil_inv (σ : SigSystem) : Prop :=
  Signal.closer (sig σ) = NilChan
  /\ sstopper σ <> EDone /\ sworker σ <> SDone.

End SignalRun.

(** ** The host (swat.go) *)
Module Host.
Section Host.

(** The actions are values of any type behind the [Action] interface:
    [start_error] is what [action.Start()] returns and [end_returns] tells
    whether [action.End()] returns. *)
Variable A : Type.
Variable start_error : A -> option error.
Variable end_returns : A -> bool.

Record Swat : Type := mkSwat { actions : list A }.

Inductive event : Type :=
  | StartCalled (a : A)
  | EndCalled (a : A).

Inductive result : Type :=
  | Returned (err : option error)
  | Hung.

(** [End]: one goroutine per action of [s.actions], each calling
    [wg.Done] once its [action.End()] has returned.  The calls are
    concurrent; they are logged in the order of [s.actions].  The counter
    left is the number of actions whose [End] does not return. *)
Definition End (s : Swat) : list event * bool :=
  (map EndCalled (actions s),
   Wait_returns (List.length (List.filter (fun a => negb (end_returns a)) (actions s)))).

(** [Boot]: the calls made, the host afterwards and the result. *)
Fixpoint Boot (acts : list A) (s : Swat) : list event * Swat * result :=
  match acts with
  | [] => ([], s, Returned None)
  | action :: rest =>
      match start_error action with
      | Some err =>
          (StartCalled action :: fst (End s), s,
           if snd (End s) then Returned (Some err) else Hung)
      | None =>
          match Boot rest {| actions := actions s ++ [action] |} with
          | (evs, s', r) => (StartCalled action :: evs, s', r)
          end
      end
  end.

(** [Start(actions...)] *)
Definition Start (acts : list A) : list event * Swat * result :=
  Boot acts {| actions := [] |}.

End Host.
End Host.

(** * Properties *)

(** ** Validation and the zero values of the setters *)

Ltac split_tests :=
  repeat match goal with
         | |- context [?a =? ?b] => destruct (Z.eqb_spec a b)
         | |- context [?a <? ?b] => destruct (Z.ltb_spec a b)
         | |- context [?a <=? ?b] => destruct (Z.leb_spec a b)
         end.

Lemma validate_cases (s : Scheduler) :
  validate s = None \/ validate s = Some ErrAtAfter
  \/ validate s = Some ErrUntilFor \/ validate s = Some ErrEveryRequired.
Proof.
  unfold validate.
  destruct (negb (IsZero (at_ s)) && (0 <? after s)); [tauto|].
  destruct (negb (IsZero (until s)) && (0 <? length s)); [tauto|].
  destruct (((0 <? length s) || negb (IsZero (until s))) && (every s =? 0)); tauto.
Qed.

Lemma validate_None_iff (s : Scheduler) :
  validate s = None <-> ~ spec_rejected s.
Proof.
  unfold validate, spec_rejected, spec_at_set, spec_after_set, spec_until_set,
    spec_for_set, spec_every_set, IsZero.
  split_tests; simpl; split; intros Hrej; try discriminate; try reflexivity;
    try (exfalso; apply Hrej; clear Hrej); try lia; try tauto.
Qed.

(** C3. [validate] returns an error exactly for the three rejected
    combinations (At with After, Until with For, For or Until without
    Every) and returns [nil] for every other configuration.  At and Until
    count as set when they are not the zero instant, After and For when
    their duration is positive, and Every is missing when its duration is
    zero, which are the tests the code makes. *)
Theorem validate_rejects_exactly (s : Scheduler) :
  (spec_rejected s <-> exists err, validate s = Some err)
  /\ (~ spec_rejected s <-> validate s = None).
Proof.
  pose proof (validate_None_iff s) as HN.
  split; [|tauto].
  split.
  - intros Hr. destruct (validate s) as [err|] eqn:E; [eauto|].
    exfalso. apply HN; auto.
  - intros [err E]. destruct (validate_cases s) as [H|H].
    + congruence.
    + unfold spec_rejected, spec_at_set, spec_after_set, spec_until_set,
        spec_for_set, spec_every_set.
      clear H HN. revert E. unfold validate, IsZero.
      split_tests; simpl; intros; try discriminate; lia.
Qed.

(** Which of the three errors is reported: the first test that fires. *)
Lemma validate_at_after (s : Scheduler) :
  spec_at_set s -> spec_after_set s -> validate s = Some ErrAtAfter.
Proof.
  unfold spec_at_set, spec_after_set, validate, IsZero.
  intros. split_tests; simpl; try reflexivity; lia.
Qed.

Lemma validate_until_for (s : Scheduler) :
  ~ (spec_at_set s /\ spec_after_set s) ->
  spec_until_set s -> spec_for_set s -> validate s = Some ErrUntilFor.
Proof.
  unfold spec_at_set, spec_after_set, spec_until_set, spec_for_set, validate, IsZero.
  intros. split_tests; simpl; try reflexivity; lia.
Qed.

(** For durations that are not negative, set is the same as not zero. *)
Lemma set_durations_nonneg (s : Scheduler) :
  0 <= after s -> 0 <= length s ->
  (spec_after_set s <-> after s <> 0) /\ (spec_for_set s <-> length s <> 0).
Proof. unfold spec_after_set, spec_for_set. lia. Qed.

(** A negative duration is not a set After or For, but it is a set Every. *)
Example validate_negative_after :
  validate (After (-1) (At 5 newScheduler)) = None.
Proof. reflexivity. Qed.

Example validate_negative_every :
  validate (For 7 (Every (-1) newScheduler)) = None.
Proof. reflexivity. Qed.

(** C9. [After] with a zero duration is the same as no call of [After]: on
    a schedule configured by the other four setters it changes nothing,
    and on any schedule it never gives the At/After error, does not
    activate the scheduler (activation is left to At and Every), and the
    initial wait is resolved from At alone. *)
Theorem After_zero_is_unset (s : Scheduler) (t u now : Time) (e l : Duration) :
  After 0 (Until u (For l (Every e (At t newScheduler))))
    = Until u (For l (Every e (At t newScheduler)))
  /\ ~ spec_after_set (After 0 s)
  /\ validate (After 0 s) <> Some ErrAtAfter
  /\ validate (After 0 s) = validate (After (after newScheduler) s)
  /\ isActivated (After 0 s) = negb (IsZero (at_ s)) || (0 <? every s)
  /\ resolveSleep (After 0 s) now
     = if negb (IsZero (at_ s)) then Sub (at_ s) now else 0.
Proof.
  split; [reflexivity|]. split; [unfold spec_after_set; simpl; lia|].
  repeat split.
  - unfold validate; simpl. rewrite andb_false_r.
    destruct (negb (IsZero (until s)) && (0 <? length s)); [discriminate|].
    destruct (((0 <? length s) || negb (IsZero (until s))) && (every s =? 0));
      discriminate.
Qed.

(** ** Runs of the worker and the stopper *)

Lemma run_app (ls1 ls2 : list label) (σ : System) :
  run (ls1 ++ ls2) σ =
  match run ls1 σ with Some σ' => run ls2 σ' | None => None end.
Proof.
  revert σ. induction ls1 as [|l ls1 IH]; intros σ; simpl; [reflexivity|].
  destruct (step l σ); auto.
Qed.

(** An invariant of single steps holds along every run. *)
Lemma run_invariant (P : System -> Prop) :
  (forall l σ σ', P σ -> step l σ = Some σ' -> P σ') ->
  forall ls σ σ', P σ -> run ls σ = Some σ' -> P σ'.
Proof.
  intros Hstep. induction ls as [|l ls IH]; simpl; intros σ σ' HP Hrun.
  - congruence.
  - destruct (step l σ) as [σ1|] eqn:E; [|discriminate]. eauto.
Qed.

Ltac step_cases l σ :=
  destruct l; simpl; unfold worker_step, stopper_step;
  destruct σ as [s c w e fs]; simpl; destruct w; destruct e; simpl.

Ltac solve_step :=
  repeat match goal with
         | |- (if ?b then _ else _) = Some _ -> _ => destruct b
         | |- match ?x with Some _ => _ | None => _ end = Some _ -> _ =>
             destruct x as [[? ?]|] eqn:?
         | |- match ?x with Some _ => _ | None => _ end = Some _ -> _ =>
             destruct x eqn:?
         | |- Some _ = Some _ -> _ =>
             let H := fresh in intros H; injection H as <-
         | |- None = Some _ -> _ => discriminate
         end.

(** *** Inert schedules *)





(** *** A nil closer *)

Lemma nil_inv_step (l : label) (σ σ' : System) :
  nil_inv σ -> step l σ = Some σ' -> nil_inv σ'.
Proof.
  unfold nil_inv, ended, exited. intros (Hc & He & Hx). revert Hc He Hx.
  step_cases l σ; intros Hc He Hx; try rewrite Hc; simpl;
    try discriminate; solve_step; simpl; auto.
Qed.

(** With a nil closer neither [end] returns nor the worker exits, in any
    interleaving. *)
Lemma nil_closer_blocks (s : Scheduler) (now : Time) (ls : list label) (σ' : System) :
  closer s = NilChan ->
  run ls (go_start s now) = Some σ' ->
  ended σ' = false /\ exited σ' = false.
Proof.
  intros Hc Hrun.
  assert (Hinv : nil_inv σ').
  { eapply (run_invariant nil_inv); [apply nil_inv_step| |exact Hrun].
    unfold nil_inv; simpl; auto. }
  destruct Hinv as (_ & He & Hx); auto.
Qed.

(** [parallel] returns only when it was given no function at all. *)
Lemma parallel_launch_counter {T : Type} (fns : list T) (acc : nat * list T) :
  fst (fold_left (fun acc fn => (S (fst acc), snd acc ++ [fn])) fns acc)
  = (List.length fns + fst acc)%nat.
Proof.
  revert acc. induction fns as [|fn fns IH]; intros acc; simpl; [reflexivity|].
  rewrite IH. simpl. lia.
Qed.

Lemma parallel_returns_iff {T : Type} (fns : list T) :
  parallel_returns fns = true <-> fns = [].
Proof.
  unfold parallel_returns, parallel_launch, Wait_returns.
  rewrite parallel_launch_counter. simpl.
  destruct fns; simpl; split; intros; try reflexivity; try discriminate.
Qed.

(** *** [End] on an action made by [NewAction] *)

(** Every fluent configuration of [NewAction] leaves the nil closer of
    [new(scheduler)] in place. *)
Lemma configure_closer_nil (calls : list Action.setup) (b : Action.BaseAction)
  (fs : Target.FS) :
  closer (Action.scheduler b) = NilChan ->
  closer (Action.scheduler (fst (Action.configure calls (b, fs)))) = NilChan.
Proof.
  unfold Action.configure. revert b fs.
  induction calls as [|c calls IH]; intros b fs Hb; simpl; [exact Hb|].
  destruct c; simpl; try (apply IH; exact Hb).
  unfold Action.ToFile.
  destruct (Action.lastErr b); [apply IH; exact Hb|].
  destruct (Target.ToFile f (Action.targeter b) fs) as [[err t'] fs'].
  apply IH. exact Hb.
Qed.

(** The one shot fires, and the worker then blocks in its deferred push: the
    completion marker is never in the closer. *)
Example NewAction_one_shot_blocked :
  ideal_run 4 (go_start (Action.scheduler (Action.At 1 Action.NewAction))
                 (Unix 1700000000 0))
  = Blocked {| sched := At 1 zeroScheduler; clock := Unix 1700000000 0;
               worker := WDefer; stopper := EIdle;
               fired := [Unix 1700000000 0] |}.
Proof. vm_compute. reflexivity. Qed.

(** C1, at the actions made by [NewAction].  Whatever the chain of fluent
    calls, the closer is the nil channel of [new(scheduler)]: in no
    interleaving does the scheduler's [end] return or the worker exit (the
    worker that has fired stays blocked in its deferred push), and the wait
    group of [parallel] is never counted down, so [End] does not return. *)
Theorem NewAction_End_blocks (calls : list Action.setup) (fs : Target.FS)
  (now : Time) (ls : list label) (σ' : System) :
  run ls (go_start (Action.scheduler
                      (fst (Action.configure calls (Action.NewAction, fs)))) now)
    = Some σ' ->
  ended σ' = false /\ exited σ' = false
  /\ Action.End_returns (fst (Action.configure calls (Action.NewAction, fs))) = false.
Proof.
  intros Hrun.
  assert (Hnil : closer (Action.scheduler
                           (fst (Action.configure calls (Action.NewAction, fs))))
                 = NilChan) by (apply configure_closer_nil; reflexivity).
  destruct (nil_closer_blocks _ _ _ _ Hnil Hrun) as (He & Hx).
  repeat split; auto.
Qed.

Lemma NewAction_End_blocks_witness :
  ended {| sched := At 1 zeroScheduler; clock := 5; worker := WDefer;
           stopper := ESelect; fired := [5] |} = false
  /\ exited {| sched := At 1 zeroScheduler; clock := 5; worker := WDefer;
               stopper := ESelect; fired := [5] |} = false.
Proof.
  pose proof (NewAction_End_blocks [Action.SetAt 1]
                {| Target.creatable := fun _ => true; Target.files := [] |}
                5 [W_run; W_timer; W_run; E_call]
                {| sched := At 1 zeroScheduler; clock := 5; worker := WDefer;
                   stopper := ESelect; fired := [5] |} eq_refl) as H.
  split; apply H.
Defined.

(** [Start] of such an action succeeds and launches the two workers. *)
Example NewAction_Start_launches :
  Action.Start (Action.At 1 Action.NewAction)
  = (None, [Action.SchedulerStart (At 1 zeroScheduler);
            Action.SignalerStart Signal.zeroSignaler]).
Proof. reflexivity. Qed.

(** On the closer that [newScheduler] makes the handshake does what C1
    says: once the worker has pushed its marker and exited, [end] can only
    take the receive case of its select, and returns. *)
Lemma end_after_exit_returns (σ : System) :
  worker σ = WDone -> stopper σ = EIdle ->
  closer (sched σ) = Buffered 1 [true] ->
  step E_call σ = Some (set_stopper ESelect σ)
  /\ step E_send (set_stopper ESelect σ) = None
  /\ step E_recv (set_stopper ESelect σ)
     = Some (set_stopper EDone (set_closer (Buffered 1 []) σ)).
Proof.
  destruct σ as [s c w e fs]; simpl. intros -> -> Hc.
  unfold stopper_step; simpl. rewrite Hc; simpl. auto.
Qed.

(** *** [end] during the initial wait *)

(** C2, at a scheduler made by [newScheduler] with [After d].  [end] is
    called while the worker waits in its first select, before any firing.
    The timer expires before the stopper's select runs; the stopper sends
    its request into the free slot of the closer and takes it back itself
    at [<-s.closer]: [end] has returned, the worker has seen no request, and
    the callback is invoked at [now + d]. *)
Theorem end_during_initial_wait_misses (now : Time) (d : Duration) :
  0 < d -> now + d < farFuture ->
  exists σ1 σ2,
    run [W_run; E_call] (go_start (After d newScheduler) now) = Some σ1
    /\ worker σ1 = WSelect1 (now + d) /\ stopper σ1 = ESelect
    /\ clock σ1 = now /\ fired σ1 = []
    /\ run [Tick d; E_send; E_recv; W_timer; W_run] σ1 = Some σ2
    /\ ended σ2 = true /\ fired σ2 = [now + d].
Proof.
  intros Hd Hfar.
  assert (Hd' : (0 <? d) = true) by (apply Z.ltb_lt; lia).
  assert (Hle : (now + d <=? now + d) = true) by (apply Z.leb_le; lia).
  assert (Hb : (now + d <? farFuture) = true) by (apply Z.ltb_lt; lia).
  exists {| sched := After d newScheduler; clock := now;
            worker := WSelect1 (now + d); stopper := ESelect; fired := [] |}.
  exists {| sched := After d newScheduler; clock := now + d;
            worker := WDefer; stopper := EDone; fired := [now + d] |}.
  split.
  { simpl. unfold worker_step, stopper_step, isActivated, resolveSleep; simpl.
    rewrite Hd'; simpl. reflexivity. }
  repeat (split; [reflexivity|]).
  split; [|split; reflexivity].
  simpl. rewrite Hd'.
  unfold worker_step, stopper_step, Add, Before, getUntil; simpl.
  rewrite Hle; simpl. rewrite Hb; simpl. reflexivity.
Qed.

Lemma end_during_initial_wait_misses_witness :
  exists σ1 σ2,
    run [W_run; E_call] (go_start (After (500 * Millisecond) newScheduler)
                           (Unix 1700000000 0)) = Some σ1
    /\ worker σ1 = WSelect1 (Unix 1700000000 0 + 500 * Millisecond)
    /\ stopper σ1 = ESelect
    /\ clock σ1 = Unix 1700000000 0 /\ fired σ1 = []
    /\ run [Tick (500 * Millisecond); E_send; E_recv; W_timer; W_run] σ1 = Some σ2
    /\ ended σ2 = true
    /\ fired σ2 = [Unix 1700000000 0 + 500 * Millisecond].
Proof.
  apply (end_during_initial_wait_misses (Unix 1700000000 0) (500 * Millisecond));
    vm_compute; reflexivity.
Defined.

(** The same loss when [end] runs before the new goroutine has reached its
    select: the request is sent and taken back, then the worker waits and
    fires. *)
Example end_before_worker_runs_misses :
  run [E_call; E_send; E_recv; W_run; Tick 500; W_timer; W_run]
    (go_start (After 500 newScheduler) 1000)
  = Some {| sched := After 500 newScheduler; clock := 1500; worker := WDefer;
            stopper := EDone; fired := [1500] |}.
Proof. vm_compute. reflexivity. Qed.

(** ** The worker on the ideal clock *)

Arguments ideal_run : simpl never.

Ltac sys_simpl :=
  unfold go_start, set_worker, set_stopper, set_closer, call_fn, advance; simpl.

Lemma ideal_run_S (n : nat) (σ : System) :
  ideal_run (S n) σ =
  match ideal_label σ with
  | None => Finished σ
  | Some l =>
      match step l σ with
      | Some σ' => ideal_run n σ'
      | None => Blocked σ
      end
  end.
Proof. reflexivity. Qed.

Lemma ideal_run_0 (σ : System) :
  ideal_run 0 σ =
  match ideal_label σ with None => Finished σ | Some _ => OutOfFuel end.
Proof. reflexivity. Qed.

(** More fuel does not change the result of a run that finished. *)
Lemma ideal_run_more (n m : nat) (σ σ' : System) :
  ideal_run n σ = Finished σ' -> (n <= m)%nat -> ideal_run m σ = Finished σ'.
Proof.
  revert m σ. induction n as [|n IH]; intros m σ Hrun Hle.
  - rewrite ideal_run_0 in Hrun.
    destruct m; [rewrite ideal_run_0|rewrite ideal_run_S];
      destruct (ideal_label σ); congruence.
  - destruct m as [|m]; [lia|].
    rewrite ideal_run_S in *. destruct (ideal_label σ) as [l|]; [|exact Hrun].
    destruct (step l σ) as [σ1|]; [|discriminate].
    apply IH; [exact Hrun|lia].
Qed.

(** Once the worker has exited, no move invokes the callback. *)
Lemma exited_step (F : list Time) (l : label) (σ σ' : System) :
  exited σ = true /\ fired σ = F -> step l σ = Some σ' ->
  exited σ' = true /\ fired σ' = F.
Proof.
  unfold exited. intros (Hx & Hf). revert Hx Hf.
  step_cases l σ; intros Hx Hf; try discriminate; solve_step; simpl; auto.
Qed.

Lemma exited_no_more_firings (ls : list label) (σ σ' : System) :
  exited σ = true -> run ls σ = Some σ' -> fired σ' = fired σ.
Proof.
  intros Hx Hrun.
  apply (run_invariant (fun τ => exited τ = true /\ fired τ = fired σ)
           (exited_step (fired σ)) ls σ σ'); auto.
Qed.

(** The wait of a select on the ideal clock: the timer case is taken at the
    deadline, or at once when the deadline has passed. *)
Lemma ideal_select1 (n : nat) (s : Scheduler) (c dl : Time) (e : epc) (F : list Time) :
  ideal_run (S (S n)) {| sched := s; clock := c; worker := WSelect1 dl;
                         stopper := e; fired := F |}
  = if c <? dl
    then ideal_run n {| sched := s; clock := c + (dl - c);
                        worker := WLoop (getUntil s (c + (dl - c)));
                        stopper := e; fired := F |}
    else ideal_run (S n) {| sched := s; clock := c;
                            worker := WLoop (getUntil s c);
                            stopper := e; fired := F |}.
Proof.
  rewrite ideal_run_S. unfold ideal_label; simpl.
  destruct (Z.ltb_spec c dl) as [Hlt|Hge].
  - simpl. assert (H1 : (0 <? dl - c) = true) by (apply Z.ltb_lt; lia).
    rewrite H1. sys_simpl. rewrite ideal_run_S. unfold ideal_label; simpl.
    assert (H2 : (c + (dl - c) <? dl) = false) by (apply Z.ltb_ge; lia).
    rewrite H2. simpl. unfold worker_step; simpl.
    assert (H3 : (dl <=? c + (dl - c)) = true) by (apply Z.leb_le; lia).
    rewrite H3. reflexivity.
  - simpl. unfold worker_step; simpl.
    assert (H3 : (dl <=? c) = true) by (apply Z.leb_le; lia).
    rewrite H3. reflexivity.
Qed.

Lemma minDuration_neg : minDuration < 0.
Proof. reflexivity. Qed.

Lemma maxDuration_pos : 0 < maxDuration.
Proof. reflexivity. Qed.

(** C6. A schedule with [At t] alone, started at [now]: the worker invokes
    the callback exactly once, at [t], or at once when [t] is not after
    [now], then pushes its marker and exits; no later move fires again.
    The wait [t - now] has to fit a duration, and the firing instant has to
    precede the fallback cutoff of [getUntil]. *)
Theorem At_alone_fires_once (t now : Time) (fuel : nat) :
  t <> 0 -> t - now <= maxDuration -> Z.max now t < farFuture ->
  (5 <= fuel)%nat ->
  exists σ',
    ideal_run fuel (go_start (At t newScheduler) now) = Finished σ'
    /\ fired σ' = [Z.max now t]
    /\ exited σ' = true
    /\ (forall ls σ'', run ls σ' = Some σ'' -> fired σ'' = [Z.max now t]).
Proof.
  intros Ht Hfit Hfar Hfuel.
  assert (Hz : IsZero t = false) by (apply Z.eqb_neq; exact Ht).
  assert (Hrun : exists σ',
    ideal_run 5 (go_start (At t newScheduler) now) = Finished σ'
    /\ fired σ' = [Z.max now t] /\ exited σ' = true).
  { rewrite ideal_run_S. unfold ideal_label, go_start; simpl.
    unfold worker_step, isActivated, resolveSleep; simpl.
    rewrite Hz; sys_simpl. rewrite ideal_select1.
    unfold getUntil, Add; simpl.
    destruct (Z.ltb_spec now (now + Sub t now)) as [Hlt|Hge].
    - assert (Hs : Sub t now = t - now).
      { pose proof minDuration_neg. revert Hlt. unfold Sub. split_tests; lia. }
      rewrite Hs. replace (now + (now + (t - now) - now)) with (Z.max now t) by lia.
      rewrite !ideal_run_S. unfold ideal_label; simpl.
      unfold worker_step, Before; simpl.
      assert (Hb : (Z.max now t <? farFuture) = true) by (apply Z.ltb_lt; lia).
      rewrite Hb. simpl. eexists; split; [reflexivity|]. simpl; auto.
    - assert (Hm : Z.max now t = now).
      { pose proof maxDuration_pos. revert Hge. unfold Sub. split_tests; lia. }
      rewrite Hm in *.
      rewrite !ideal_run_S. unfold ideal_label; simpl.
      unfold worker_step, Before; simpl.
      assert (Hb : (now <? farFuture) = true) by (apply Z.ltb_lt; lia).
      rewrite Hb. simpl. eexists; split; [reflexivity|]. simpl; auto. }
  destruct Hrun as (σ' & Hrun & Hf & Hx).
  exists σ'. split; [eapply ideal_run_more; eauto|].
  split; [exact Hf|]. split; [exact Hx|].
  intros ls σ'' Hls. rewrite <- Hf. eapply exited_no_more_firings; eauto.
Qed.

Lemma At_alone_fires_once_witness :
  exists σ',
    ideal_run 5 (go_start (At (Unix 1700000000 0 + 100 * Millisecond) newScheduler)
                   (Unix 1700000000 0)) = Finished σ'
    /\ fired σ' = [Z.max (Unix 1700000000 0) (Unix 1700000000 0 + 100 * Millisecond)]
    /\ exited σ' = true
    /\ (forall ls σ'', run ls σ' = Some σ'' ->
        fired σ'' = [Z.max (Unix 1700000000 0) (Unix 1700000000 0 + 100 * Millisecond)]).
Proof.
  apply (At_alone_fires_once (Unix 1700000000 0 + 100 * Millisecond)
           (Unix 1700000000 0) 5);
    first [ apply Nat.le_refl | vm_compute; intro; discriminate | reflexivity ].
Defined.

(** *** The repeating loop *)

Lemma firings_length (start interval : Z) (n : nat) :
  List.length (firings start interval n) = n.
Proof.
  revert start. induction n as [|n IH]; intros start; simpl; [reflexivity|].
  rewrite IH. reflexivity.
Qed.

Lemma firings_lookup (start interval : Z) (n k : nat) :
  (k < n)%nat ->
  firings start interval n !! k = Some (start + Z.of_nat k * interval).
Proof.
  revert start k. induction n as [|n IH]; intros start k Hk; [lia|].
  destruct k as [|k]; simpl.
  - f_equal. lia.
  - rewrite IH by lia. f_equal. lia.
Qed.

Lemma firings_before (start interval cutoff : Z) (n : nat) :
  0 < interval ->
  ((0 < n)%nat -> start + (Z.of_nat n - 1) * interval < cutoff) ->
  Forall (fun x => x < cutoff) (firings start interval n).
Proof.
  intros Hi. revert start. induction n as [|n IH]; intros start Hn; simpl.
  - constructor.
  - constructor; [nia|]. apply IH. intros Hpos. 
    assert (H := Hn ltac:(lia)). nia.
Qed.

(** From the loop condition, with a positive interval and a free slot in
    the closer: the callback fires at [t], [t + i], ... for as long as the
    instant is before the cutoff, then the worker pushes its marker and
    exits. *)
Lemma ideal_loop (n : nat) :
  forall (k : nat) (s : Scheduler) (t cutoff : Time) (e : epc) (F : list Time),
    0 < every s -> closer s = Buffered 1 [] ->
    cutoff <= t + Z.of_nat n * every s ->
    ((0 < n)%nat -> t + (Z.of_nat n - 1) * every s < cutoff) ->
    exists σ',
      ideal_run (3 * n + 2 + k) {| sched := s; clock := t; worker := WLoop cutoff;
                                   stopper := e; fired := F |} = Finished σ'
      /\ fired σ' = F ++ firings t (every s) n
      /\ exited σ' = true.
Proof.
  induction n as [|n IH]; intros k s t cutoff e F Hi Hc Hend Hlast.
  - replace (3 * 0 + 2 + k)%nat with (S (S k)) by lia.
    rewrite ideal_run_S. unfold ideal_label; simpl. unfold worker_step, Before; simpl.
    assert (Hb : (t <? cutoff) = false) by (apply Z.ltb_ge; lia).
    rewrite Hb. sys_simpl.
    rewrite ideal_run_S. unfold ideal_label; simpl. unfold worker_step; simpl.
    rewrite Hc; sys_simpl.
    destruct k; [rewrite ideal_run_0|rewrite ideal_run_S]; unfold ideal_label; simpl;
      (eexists; split; [reflexivity|]; simpl; rewrite app_nil_r; auto).
  - replace (3 * S n + 2 + k)%nat with (S (S (S (3 * n + 2 + k)))) by lia.
    assert (Ht : t < cutoff) by (specialize (Hlast ltac:(lia)); nia).
    rewrite ideal_run_S. unfold ideal_label; simpl. unfold worker_step, Before; simpl.
    assert (Hb : (t <? cutoff) = true) by (apply Z.ltb_lt; lia).
    assert (Hz : (every s =? 0) = false) by (apply Z.eqb_neq; lia).
    rewrite Hb, Hz. sys_simpl.
    rewrite ideal_run_S. unfold ideal_label; simpl. unfold Add.
    assert (H1 : (t <? t + every s) = true) by (apply Z.ltb_lt; lia).
    rewrite H1. simpl.
    assert (H2 : (0 <? t + every s - t) = true) by (apply Z.ltb_lt; lia).
    rewrite H2. sys_simpl.
    rewrite ideal_run_S. unfold ideal_label; simpl.
    assert (H3 : (t + (t + every s - t) <? t + every s) = false) by (apply Z.ltb_ge; lia).
    rewrite H3. simpl. unfold worker_step; simpl.
    assert (H4 : (t + every s <=? t + (t + every s - t)) = true) by (apply Z.leb_le; lia).
    rewrite H4. sys_simpl.
    replace (t + (t + every s - t)) with (t + every s) by lia.
    destruct (IH k s (t + every s) cutoff e (F ++ [t]) Hi Hc) as (σ' & Hrun & Hf & Hx).
    + lia.
    + intros Hpos. specialize (Hlast ltac:(lia)). lia.
    + exists σ'. split; [exact Hrun|]. split; [|exact Hx].
      rewrite Hf. rewrite <- app_assoc. reflexivity.
Qed.

Lemma firing_count_bounds (f i : Duration) :
  0 < i -> 0 < f ->
  (0 < firing_count f i)%nat
  /\ f <= Z.of_nat (firing_count f i) * i
  /\ (Z.of_nat (firing_count f i) - 1) * i < f.
Proof.
  intros Hi Hf. unfold firing_count.
  assert (Hq : 0 < (f + i - 1) / i) by (apply Z.div_str_pos; lia).
  pose proof (Z.mul_div_le (f + i - 1) i Hi).
  pose proof (Z.mul_succ_div_gt (f + i - 1) i Hi).
  rewrite Z2Nat.id by lia. split; [lia|]. split; nia.
Qed.

(** The count against the quotient [f / i]. *)
Lemma firing_count_floor (f i : Duration) :
  0 < i -> 0 < f ->
  Z.of_nat (firing_count f i) = if f mod i =? 0 then f / i else f / i + 1.
Proof.
  intros Hi Hf. destruct (firing_count_bounds f i Hi Hf) as (Hpos & Hge & Hlt).
  pose proof (Z.div_mod f i ltac:(lia)) as Hdm.
  pose proof (Z.mod_pos_bound f i Hi) as Hmod.
  destruct (Z.eqb_spec (f mod i) 0) as [Hz|Hnz]; nia.
Qed.

(** C4, as the code has it.  [After d], [Every i], [For f] with positive
    durations, on the ideal clock: the callback fires at [now + d],
    [now + d + i], ... exactly at the instants strictly before
    [now + d + f], then the worker exits.  The number of firings is the
    quotient [f / i] rounded up: [f / i + 1] when [i] does not divide [f],
    and [f / i] when it does. *)
Theorem After_Every_For_firings (now : Time) (d i f : Duration) (fuel : nat) :
  0 < d -> 0 < i -> 0 < f ->
  (3 * firing_count f i + 5 <= fuel)%nat ->
  exists σ',
    ideal_run fuel (go_start (For f (Every i (After d newScheduler))) now)
      = Finished σ'
    /\ exited σ' = true
    /\ fired σ' = firings (now + d) i (firing_count f i)
    /\ Forall (fun x => x < now + d + f) (fired σ')
    /\ now + d + f <= now + d + Z.of_nat (firing_count f i) * i
    /\ Z.of_nat (List.length (fired σ'))
       = if f mod i =? 0 then f / i else f / i + 1.
Proof.
  intros Hd Hi Hf Hfuel.
  destruct (firing_count_bounds f i Hi Hf) as (Hpos & Hge & Hlt).
  set (n := firing_count f i) in *.
  set (s := For f (Every i (After d newScheduler))).
  destruct (ideal_loop n 0 s (now + d) (now + d + f) EIdle [])
    as (σ' & Hrun & Hfired & Hx); try reflexivity; simpl; try lia.
  exists σ'. split.
  - apply ideal_run_more with (n := (3 * n + 5)%nat); [|exact Hfuel].
    replace (3 * n + 5)%nat with (S (S (S (3 * n + 2 + 0)))) by lia.
    rewrite ideal_run_S. unfold ideal_label; simpl.
    unfold worker_step, isActivated, resolveSleep; simpl.
    assert (Hd' : (0 <? d) = true) by (apply Z.ltb_lt; lia).
    rewrite Hd'; sys_simpl. rewrite ideal_select1.
    assert (H1 : (now <? Add now d) = true) by (apply Z.ltb_lt; unfold Add; lia).
    rewrite H1. unfold getUntil, Add; simpl.
    assert (Hf' : (0 <? f) = true) by (apply Z.ltb_lt; lia).
    rewrite Hf'. replace (now + (now + d - now)) with (now + d) by lia.
    exact Hrun.
  - split; [exact Hx|]. simpl in Hfired. rewrite Hfired.
    split; [reflexivity|]. split; [|split].
    + apply firings_before; [exact Hi|]. intros _. lia.
    + lia.
    + rewrite firings_length. apply firing_count_floor; assumption.
Qed.

Lemma After_Every_For_firings_witness :
  exists σ',
    ideal_run 14 (go_start (For (200 * Millisecond)
                             (Every (80 * Millisecond)
                                (After (500 * Millisecond) newScheduler))) 1000)
      = Finished σ'
    /\ exited σ' = true
    /\ fired σ' = firings (1000 + 500 * Millisecond) (80 * Millisecond)
                    (firing_count (200 * Millisecond) (80 * Millisecond))
    /\ Forall (fun x => x < 1000 + 500 * Millisecond + 200 * Millisecond) (fired σ')
    /\ 1000 + 500 * Millisecond + 200 * Millisecond
       <= 1000 + 500 * Millisecond
          + Z.of_nat (firing_count (200 * Millisecond) (80 * Millisecond))
            * (80 * Millisecond)
    /\ Z.of_nat (List.length (fired σ'))
       = if (200 * Millisecond) mod (80 * Millisecond) =? 0
         then (200 * Millisecond) / (80 * Millisecond)
         else (200 * Millisecond) / (80 * Millisecond) + 1.
Proof.
  apply (After_Every_For_firings 1000 (500 * Millisecond) (80 * Millisecond)
           (200 * Millisecond) 14);
    first [ reflexivity | vm_compute; lia ].
Defined.

(** The scenario of the repository's test: three firings. *)
Example After_Every_For_test_scenario :
  ideal_run 14 (go_start (For (200 * Millisecond)
                           (Every (80 * Millisecond)
                              (After (500 * Millisecond) newScheduler))) 0)
  = Finished {| sched := with_closer (Buffered 1 [true])
                           (For (200 * Millisecond)
                              (Every (80 * Millisecond)
                                 (After (500 * Millisecond) newScheduler)));
                clock := 740 * Millisecond; worker := WDone; stopper := EIdle;
                fired := [500 * Millisecond; 580 * Millisecond; 660 * Millisecond] |}.
Proof. vm_compute. reflexivity. Qed.

(** C4 as stated fails when the interval divides the length of the run:
    with [After 500ms], [Every 100ms], [For 200ms] the cutoff is at 700ms,
    the callback fires at 500ms and at 600ms, and the instant 700ms is not
    strictly before the cutoff: two firings, where [f / i + 1] is three. *)
Lemma After_Every_For_count_counterexample :
  exists σ',
    ideal_run 11 (go_start (For (200 * Millisecond)
                             (Every (100 * Millisecond)
                                (After (500 * Millisecond) newScheduler))) 0)
      = Finished σ'
    /\ fired σ' = [500 * Millisecond; 600 * Millisecond]
    /\ Z.of_nat (List.length (fired σ'))
       <> (200 * Millisecond) / (100 * Millisecond) + 1.
Proof.
  eexists. split; [vm_compute; reflexivity|].
  split; [vm_compute; reflexivity|]. vm_compute. discriminate.
Qed.

(** ** The output target *)

Lemma ToFile_success (file : string) (t t' : Target.targeter) (fs fs' : Target.FS) :
  Target.ToFile file t fs = (None, t', fs') ->
  t' = {| Target.writer := Some (Target.FileWriter (List.length (Target.files fs)));
          Target.closer := Some (List.length (Target.files fs)) |}
  /\ fs' = {| Target.creatable := Target.creatable fs;
              Target.files := Target.files fs
                ++ [ {| Target.path := file; Target.status := Target.Open;
                        Target.releases := 0 |} ] |}.
Proof.
  unfold Target.ToFile, Target.os_Create.
  destruct (Target.creatable fs file); intros H; inversion H; auto.
Qed.

(** [end] on an open owned file closes it and counts one release. *)
Lemma end_open (t : Target.targeter) (fs : Target.FS) (h : Target.handle)
  (f : Target.File) :
  Target.closer t = Some h -> Target.files fs !! h = Some f ->
  Target.status f = Target.Open ->
  Target.end_ t fs
  = {| Target.creatable := Target.creatable fs;
       Target.files := <[ h := {| Target.path := Target.path f;
                                  Target.status := Target.Closed;
                                  Target.releases := S (Target.releases f) |} ]>
                         (Target.files fs) |}.
Proof.
  intros Hc Hl Hs. unfold Target.end_, Target.os_Close.
  rewrite Hc, Hl, Hs. reflexivity.
Qed.

(** [end] on a closed owned file changes nothing. *)
Lemma end_closed (t : Target.targeter) (fs : Target.FS) (h : Target.handle)
  (f : Target.File) :
  Target.closer t = Some h -> Target.files fs !! h = Some f ->
  Target.status f = Target.Closed ->
  Target.end_ t fs = fs.
Proof.
  intros Hc Hl Hs. unfold Target.end_, Target.os_Close.
  rewrite Hc, Hl, Hs. reflexivity.
Qed.

Lemma end_times_fixed (n : nat) (t : Target.targeter) (fs : Target.FS) :
  Target.end_ t fs = fs -> Target.end_times n t fs = fs.
Proof.
  intros H. induction n as [|n IH]; simpl; [reflexivity|].
  rewrite H. exact IH.
Qed.

(** [end] touches no file but the owned one. *)
Lemma end_other_file (t : Target.targeter) (fs : Target.FS) (h : Target.handle) :
  Target.closer t <> Some h ->
  Target.files (Target.end_ t fs) !! h = Target.files fs !! h.
Proof.
  intros Hne. unfold Target.end_, Target.os_Close.
  destruct (Target.closer t) as [h'|]; [|reflexivity].
  destruct (Target.files fs !! h') as [f|] eqn:E; [|reflexivity].
  destruct (Target.status f); [|reflexivity].
  simpl. apply list_lookup_insert_ne. congruence.
Qed.

Lemma end_times_other_file (n : nat) (t : Target.targeter) (fs : Target.FS)
  (h : Target.handle) :
  Target.closer t <> Some h ->
  Target.files (Target.end_times n t fs) !! h = Target.files fs !! h.
Proof.
  intros Hne. revert fs. induction n as [|n IH]; intros fs; simpl; [reflexivity|].
  rewrite IH. apply end_other_file. exact Hne.
Qed.

(** After the first [end] of a target that owns the open file [h], the
    file is closed with one release, and every later [end] is a no-op. *)
Lemma end_times_owned (n : nat) (t : Target.targeter) (fs : Target.FS)
  (h : Target.handle) (f : Target.File) :
  Target.closer t = Some h -> Target.files fs !! h = Some f ->
  Target.status f = Target.Open ->
  Target.end_times (S n) t fs = Target.end_ t fs
  /\ Target.files (Target.end_ t fs) !! h
     = Some {| Target.path := Target.path f; Target.status := Target.Closed;
               Target.releases := S (Target.releases f) |}.
Proof.
  intros Hc Hl Hs.
  assert (Hlt : (h < List.length (Target.files fs))%nat).
  { apply lookup_lt_is_Some. eauto. }
  assert (Hl' : Target.files (Target.end_ t fs) !! h
     = Some {| Target.path := Target.path f; Target.status := Target.Closed;
               Target.releases := S (Target.releases f) |}).
  { rewrite (end_open t fs h f Hc Hl Hs). simpl.
    apply list_lookup_insert_eq. exact Hlt. }
  split; [|exact Hl'].
  simpl. apply end_times_fixed.
  eapply end_closed; [exact Hc|exact Hl'|reflexivity].
Qed.

(** C5. A target whose [ToFile] succeeded owns an open file.  However many
    times [end] runs, once or more, the file ends closed and its descriptor
    has been released exactly once: the first [end] closes it and every
    later [end] leaves the file system as it is (the repeated [Close] is
    refused by the file).  On a target that owns no file [end] does
    nothing. *)
Theorem owned_file_released_once (file : string) (t t' : Target.targeter)
  (fs fs' : Target.FS) (n : nat) :
  Target.ToFile file t fs = (None, t', fs') ->
  exists h,
    Target.closer t' = Some h
    /\ Target.file_status fs' h = Some Target.Open
    /\ Target.file_releases fs' h = Some 0%nat
    /\ Target.file_status (Target.end_times (S n) t' fs') h = Some Target.Closed
    /\ Target.file_releases (Target.end_times (S n) t' fs') h = Some 1%nat
    /\ Target.end_times (S n) t' fs' = Target.end_ t' fs'
    /\ Target.end_ t' (Target.end_ t' fs') = Target.end_ t' fs'
    /\ (forall w fs0, Target.end_ {| Target.writer := w; Target.closer := None |} fs0 = fs0).
Proof.
  intros Hok. destruct (ToFile_success _ _ _ _ _ Hok) as (-> & ->).
  exists (List.length (Target.files fs)).
  set (h := List.length (Target.files fs)).
  set (f := {| Target.path := file; Target.status := Target.Open;
               Target.releases := 0 |}).
  set (t1 := {| Target.writer := Some (Target.FileWriter h); Target.closer := Some h |}).
  set (fs1 := {| Target.creatable := Target.creatable fs;
                 Target.files := Target.files fs ++ [f] |}).
  assert (Hl : Target.files fs1 !! h = Some f).
  { simpl. apply list_lookup_middle. reflexivity. }
  destruct (end_times_owned n t1 fs1 h f eq_refl Hl eq_refl) as (Hn & Hend).
  destruct (end_times_owned 1 t1 fs1 h f eq_refl Hl eq_refl) as (H2 & _).
  unfold Target.file_status, Target.file_releases.
  rewrite Hn, Hend, Hl. simpl in H2.
  repeat split; auto.
Qed.

Lemma owned_file_released_once_witness :
  exists h,
    Some 0%nat = Some h
    /\ Target.file_status
         (Target.end_times 3
            {| Target.writer := Some (Target.FileWriter 0); Target.closer := Some 0%nat |}
            {| Target.creatable := fun _ => true;
               Target.files := [ {| Target.path := "record.csv";
                                    Target.status := Target.Open;
                                    Target.releases := 0 |} ] |}) h
       = Some Target.Closed
    /\ Target.file_releases
         (Target.end_times 3
            {| Target.writer := Some (Target.FileWriter 0); Target.closer := Some 0%nat |}
            {| Target.creatable := fun _ => true;
               Target.files := [ {| Target.path := "record.csv";
                                    Target.status := Target.Open;
                                    Target.releases := 0 |} ] |}) h
       = Some 1%nat.
Proof.
  destruct (owned_file_released_once "record.csv" Target.zeroTargeter
              {| Target.writer := Some (Target.FileWriter 0); Target.closer := Some 0%nat |}
              {| Target.creatable := fun _ => true; Target.files := [] |}
              {| Target.creatable := fun _ => true;
                 Target.files := [ {| Target.path := "record.csv";
                                      Target.status := Target.Open;
                                      Target.releases := 0 |} ] |}
              2 eq_refl) as (h & Hc & _ & _ & Hs & Hr & _).
  exists h. auto.
Defined.

(** C10. When [ToFile] succeeds twice, the second call makes the second
    file both the writer and the owned closer and leaves the first file
    open; [end], however often it runs, closes the second file only: the
    first file stays open and is never released by the target. *)
Theorem second_ToFile_leaks_first (p1 p2 : string) (t t1 t2 : Target.targeter)
  (fs fs1 fs2 : Target.FS) (n : nat) :
  Target.ToFile p1 t fs = (None, t1, fs1) ->
  Target.ToFile p2 t1 fs1 = (None, t2, fs2) ->
  exists h1 h2,
    h1 <> h2
    /\ Target.closer t1 = Some h1
    /\ Target.writer t2 = Some (Target.FileWriter h2)
    /\ Target.closer t2 = Some h2
    /\ Target.files fs2 !! h1
       = Some {| Target.path := p1; Target.status := Target.Open;
                 Target.releases := 0 |}
    /\ Target.files (Target.end_times n t2 fs2) !! h1
       = Some {| Target.path := p1; Target.status := Target.Open;
                 Target.releases := 0 |}
    /\ Target.files (Target.end_times (S n) t2 fs2) !! h2
       = Some {| Target.path := p2; Target.status := Target.Closed;
                 Target.releases := 1 |}.
Proof.
  intros H1 H2.
  destruct (ToFile_success _ _ _ _ _ H1) as (-> & ->).
  destruct (ToFile_success _ _ _ _ _ H2) as (-> & ->).
  cbn [Target.files Target.creatable Target.closer Target.writer].
  set (h1 := List.length (Target.files fs)).
  set (f1 := {| Target.path := p1; Target.status := Target.Open; Target.releases := 0 |}).
  set (f2 := {| Target.path := p2; Target.status := Target.Open; Target.releases := 0 |}).
  set (h2 := List.length (Target.files fs ++ [f1])).
  assert (Hh2 : h2 = S h1).
  { unfold h2, h1. rewrite length_app. simpl. lia. }
  set (t2 := {| Target.writer := Some (Target.FileWriter h2); Target.closer := Some h2 |}).
  set (fs2 := {| Target.creatable := Target.creatable fs;
                 Target.files := (Target.files fs ++ [f1]) ++ [f2] |}).
  assert (Hl1 : Target.files fs2 !! h1 = Some f1).
  { simpl. rewrite <- app_assoc. apply list_lookup_middle. reflexivity. }
  assert (Hl2 : Target.files fs2 !! h2 = Some f2).
  { simpl. apply list_lookup_middle. reflexivity. }
  exists h1, h2. split; [lia|]. repeat (split; [auto; fail|]).
  split.
  - rewrite end_times_other_file; [exact Hl1|]. simpl. intros E. inversion E. lia.
  - destruct (end_times_owned n t2 fs2 h2 f2 eq_refl Hl2 eq_refl) as (Hn & Hend).
    rewrite Hn. exact Hend.
Qed.

Lemma second_ToFile_leaks_first_witness :
  exists h1 h2 : nat,
    h1 <> h2
    /\ Target.files
         (Target.end_times 2
            {| Target.writer := Some (Target.FileWriter 1); Target.closer := Some 1%nat |}
            {| Target.creatable := fun _ => true;
               Target.files :=
                 [ {| Target.path := "a.csv"; Target.status := Target.Open;
                      Target.releases := 0 |};
                   {| Target.path := "b.csv"; Target.status := Target.Open;
                      Target.releases := 0 |} ] |}) !! h1
       = Some {| Target.path := "a.csv"; Target.status := Target.Open;
                 Target.releases := 0 |}.
Proof.
  destruct (second_ToFile_leaks_first "a.csv" "b.csv" Target.zeroTargeter
              {| Target.writer := Some (Target.FileWriter 0); Target.closer := Some 0%nat |}
              {| Target.writer := Some (Target.FileWriter 1); Target.closer := Some 1%nat |}
              {| Target.creatable := fun _ => true; Target.files := [] |}
              {| Target.creatable := fun _ => true;
                 Target.files :=
                   [ {| Target.path := "a.csv"; Target.status := Target.Open;
                        Target.releases := 0 |} ] |}
              {| Target.creatable := fun _ => true;
                 Target.files :=
                   [ {| Target.path := "a.csv"; Target.status := Target.Open;
                        Target.releases := 0 |};
                     {| Target.path := "b.csv"; Target.status := Target.Open;
                        Target.releases := 0 |} ] |}
              2 eq_refl eq_refl) as (h1 & h2 & Hne & _ & _ & _ & _ & Hl & _).
  exists h1, h2. auto.
Defined.

(** ** The base action: the sticky configuration error *)

Lemma configure_cons (c : Action.setup) (calls : list Action.setup)
  (st : Action.BaseAction * Target.FS) :
  Action.configure (c :: calls) st = Action.configure calls (Action.apply_setup st c).
Proof. reflexivity. Qed.

(** A recorded error survives every later call of the fluent interface. *)
Lemma configure_sticky (calls : list Action.setup) (b : Action.BaseAction)
  (fs : Target.FS) (err : error) :
  Action.lastErr b = Some err ->
  Action.lastErr (fst (Action.configure calls (b, fs))) = Some err.
Proof.
  revert b fs. induction calls as [|c calls IH]; intros b fs Hb; [exact Hb|].
  rewrite configure_cons.
  destruct c; simpl; try (apply IH; exact Hb).
  unfold Action.ToFile. rewrite Hb. apply IH. exact Hb.
Qed.

(** While no error is recorded, the chain records the error of its first
    [ToFile] that fails. *)
Lemma configure_lastErr (calls : list Action.setup) (b : Action.BaseAction)
  (fs : Target.FS) :
  Action.lastErr b = None ->
  Action.lastErr (fst (Action.configure calls (b, fs)))
  = Action.spec_first_error (Target.creatable fs) calls.
Proof.
  revert b fs. induction calls as [|c calls IH]; intros b fs Hb; [exact Hb|].
  rewrite configure_cons.
  destruct c; simpl; try (apply IH; exact Hb).
  unfold Action.ToFile, Target.ToFile, Target.os_Create. rewrite Hb.
  destruct (Target.creatable fs f) eqn:Hf.
  - rewrite IH; reflexivity.
  - apply configure_sticky. reflexivity.
Qed.

(** C8. For an action configured by any chain of fluent calls: [Start]
    returns the configuration error recorded by the first failing [ToFile]
    of the chain, whatever was called after it, and launches no worker;
    when no [ToFile] failed it returns the error of the scheduler's
    validation, launching no worker either; with neither, it returns [nil]
    and launches the two workers. *)
Theorem Start_returns_first_error (calls : list Action.setup) (fs : Target.FS) :
  Action.lastErr (fst (Action.configure calls (Action.NewAction, fs)))
    = Action.spec_first_error (Target.creatable fs) calls
  /\ Action.Start (fst (Action.configure calls (Action.NewAction, fs)))
     = match Action.spec_first_error (Target.creatable fs) calls with
       | Some err => (Some err, [])
       | None =>
           match validate (Action.scheduler
                             (fst (Action.configure calls (Action.NewAction, fs)))) with
           | Some err => (Some err, [])
           | None =>
               (None,
                [Action.SchedulerStart
                   (Action.scheduler
                      (fst (Action.configure calls (Action.NewAction, fs))));
                 Action.SignalerStart
                   (Action.signaler
                      (fst (Action.configure calls (Action.NewAction, fs))))])
           end
       end.
Proof.
  pose proof (configure_lastErr calls Action.NewAction fs eq_refl) as H.
  split; [exact H|].
  unfold Action.Start. rewrite H. reflexivity.
Qed.

(** A later error does not replace the first one: the second [ToFile] is
    not even tried. *)
Example Start_keeps_first_error :
  Action.Start
    (fst (Action.configure
            [Action.SetToFile "/no/such/dir/a"; Action.SetAfter 5;
             Action.SetToFile "/no/such/dir/b"; Action.SetAt 7]
            (Action.NewAction,
             {| Target.creatable := fun _ => false; Target.files := [] |})))
  = (Some (PathError "open" "/no/such/dir/a"), []).
Proof. reflexivity. Qed.

(** With files that can be made, the validation error comes out of
    [Start]. *)
Example Start_validation_error :
  Action.Start
    (fst (Action.configure
            [Action.SetToFile "record.csv"; Action.SetAfter 5; Action.SetAt 7]
            (Action.NewAction,
             {| Target.creatable := fun _ => true; Target.files := [] |})))
  = (Some ErrAtAfter, []).
Proof. reflexivity. Qed.

(** * Further properties of the code *)

(** ** The handshake on the closer of [newScheduler] *)

Lemma slot_ok_step (l : label) (σ σ' : System) :
  slot_ok σ = true -> step l σ = Some σ' -> slot_ok σ' = true.
Proof.
  unfold slot_ok.
  destruct σ as [[a af ev len un c] ck w e F]; simpl.
  destruct c as [|cap buf]; [discriminate|].
  destruct cap as [|[|cap]]; try discriminate.
  destruct buf as [|[|] [|b2 buf]]; try discriminate;
    destruct l; simpl; unfold worker_step, stopper_step; simpl;
    destruct w; destruct e; simpl; try discriminate; intros _;
    solve_step; simpl; reflexivity.
Qed.

Lemma slot_ok_reachable (s : Scheduler) (now : Time) (ls : list label) (σ : System) :
  closer s = Chan.make 1 -> run ls (go_start s now) = Some σ -> slot_ok σ = true.
Proof.
  intros Hc Hrun.
  apply (run_invariant (fun τ => slot_ok τ = true) slot_ok_step ls _ _) in Hrun;
    [exact Hrun|].
  unfold slot_ok; simpl. rewrite Hc. reflexivity.
Qed.

(** X1. On a scheduler made by [newScheduler], in every state that the
    worker and the stopper can reach, the closer holds nothing or one
    marker; a marker present while the worker has not exited is the
    request of a stopper that waits at [<-s.closer]; and a stopper that
    waits on the empty closer faces a worker that has taken the request
    and stands at its deferred push. *)
Theorem closer_slot_invariant (s : Scheduler) (now : Time) (ls : list label)
  (σ : System) :
  closer s = Chan.make 1 ->
  run ls (go_start s now) = Some σ ->
  (closer (sched σ) = Buffered 1 [] \/ closer (sched σ) = Buffered 1 [true])
  /\ (closer (sched σ) = Buffered 1 [true] -> exited σ = false -> stopper σ = EWait)
  /\ (closer (sched σ) = Buffered 1 [] -> stopper σ = EWait -> worker σ = WDefer).
Proof.
  intros Hc Hrun. pose proof (slot_ok_reachable s now ls σ Hc Hrun) as H.
  revert H. unfold slot_ok, exited.
  destruct (closer (sched σ)) as [|cap buf]; [discriminate|].
  destruct cap as [|[|cap]]; try discriminate.
  destruct buf as [|[|] [|b2 buf]]; try discriminate;
    destruct (worker σ); destruct (stopper σ); intros H; try discriminate H;
    (split; [auto|split; intros; congruence]).
Qed.

Lemma closer_slot_invariant_witness :
  (closer (After 5 newScheduler) = Buffered 1 []
   \/ closer (After 5 newScheduler) = Buffered 1 [true]).
Proof.
  apply (closer_slot_invariant (After 5 newScheduler) 0 [W_run; E_call]
           {| sched := After 5 newScheduler; clock := 0; worker := WSelect1 5;
              stopper := ESelect; fired := [] |} eq_refl eq_refl).
Defined.

Ltac try_schedule ls :=
  exists ls; eexists; split; [simpl; lia|]; split; [reflexivity|];
  split; [simpl; unfold worker_step, stopper_step; simpl; reflexivity|reflexivity].

(** X2. On a scheduler made by [newScheduler] the stopper never deadlocks:
    from every state that can be reached there are at most three moves,
    none of them a wait for time to pass, after which [end] has
    returned. *)
Theorem end_can_always_return (s : Scheduler) (now : Time) (ls : list label)
  (σ : System) :
  closer s = Chan.make 1 ->
  run ls (go_start s now) = Some σ ->
  exists ls' σ',
    (List.length ls' <= 3)%nat
    /\ existsb is_tick ls' = false
    /\ run ls' σ = Some σ' /\ ended σ' = true.
Proof.
  intros Hc Hrun. pose proof (slot_ok_reachable s now ls σ Hc Hrun) as H.
  revert H. clear Hrun. unfold slot_ok.
  destruct σ as [[a af ev len un c] ck w e F]; simpl.
  destruct c as [|cap buf]; [discriminate|].
  destruct cap as [|[|cap]]; try discriminate.
  destruct buf as [|[|] [|b2 buf]]; try discriminate;
    destruct w; destruct e; intros H; try discriminate H;
    first [ try_schedule (@nil label)
          | try_schedule [E_recv]
          | try_schedule [E_send; E_recv]
          | try_schedule [E_call; E_recv]
          | try_schedule [E_call; E_send; E_recv]
          | try_schedule [W_run; E_recv] ].
Qed.

Lemma end_can_always_return_witness :
  exists ls' σ',
    (List.length ls' <= 3)%nat
    /\ existsb is_tick ls' = false
    /\ run ls' {| sched := After 5 newScheduler; clock := 0; worker := WSelect1 5;
                  stopper := ESelect; fired := [] |} = Some σ'
    /\ ended σ' = true.
Proof.
  apply (end_can_always_return (After 5 newScheduler) 0 [W_run; E_call]
           {| sched := After 5 newScheduler; clock := 0; worker := WSelect1 5;
              stopper := ESelect; fired := [] |} eq_refl eq_refl).
Defined.

(** X3. On a scheduler made by [newScheduler] the deferred push of the
    completion marker never deadlocks: from every reachable state in which
    the worker stands at the push, at most two moves, none of them a wait
    for time, let the worker exit. *)
Theorem deferred_push_completes (s : Scheduler) (now : Time) (ls : list label)
  (σ : System) :
  closer s = Chan.make 1 ->
  run ls (go_start s now) = Some σ ->
  worker σ = WDefer ->
  exists ls' σ',
    (List.length ls' <= 2)%nat
    /\ existsb is_tick ls' = false
    /\ run ls' σ = Some σ' /\ exited σ' = true.
Proof.
  intros Hc Hrun. pose proof (slot_ok_reachable s now ls σ Hc Hrun) as H.
  revert H. clear Hrun. unfold slot_ok.
  destruct σ as [[a af ev len un c] ck w e F]; simpl.
  destruct c as [|cap buf]; [discriminate|].
  destruct cap as [|[|cap]]; try discriminate.
  destruct buf as [|[|] [|b2 buf]]; try discriminate;
    intros H Hw; subst w; destruct e; try discriminate H;
    first [ try_schedule [W_run] | try_schedule [E_recv; W_run] ].
Qed.

Lemma deferred_push_completes_witness :
  exists ls' σ',
    (List.length ls' <= 2)%nat
    /\ existsb is_tick ls' = false
    /\ run ls' {| sched := with_closer (Buffered 1 []) (After 5 newScheduler);
                  clock := 0; worker := WDefer; stopper := EWait; fired := [] |}
       = Some σ'
    /\ exited σ' = true.
Proof.
  apply (deferred_push_completes (After 5 newScheduler) 0
           [W_run; E_call; E_send; W_closer]
           {| sched := with_closer (Buffered 1 []) (After 5 newScheduler);
              clock := 0; worker := WDefer; stopper := EWait; fired := [] |}
           eq_refl eq_refl eq_refl).
Defined.

(** X4. [end] on a scheduler of [newScheduler] whose worker was never
    started: the stopper can only send its request and take it back; it
    returns, the closer is empty again, and the same holds for every
    further call. *)
Theorem end_without_start_returns (s : Scheduler) (now : Time) (n : nat) :
  closer s = Chan.make 1 ->
  run (concat (replicate n [E_call; E_send; E_recv])) (go_start s now)
  = Some (match n with
          | O => go_start s now
          | S _ => set_stopper EDone (go_start (with_closer (Buffered 1 []) s) now)
          end)
  /\ step E_recv (set_stopper ESelect (go_start s now)) = None.
Proof.
  intros Hc. split.
  - destruct s as [a af ev len un c]. simpl in Hc. subst c.
    induction n as [|n IH]; [reflexivity|].
    replace (S n) with (n + 1)%nat by lia.
    rewrite replicate_add, concat_app, run_app, IH.
    destruct n; reflexivity.
  - unfold step, stopper_step; simpl. rewrite Hc. reflexivity.
Qed.

Lemma end_without_start_returns_witness :
  run (concat (replicate 2 [E_call; E_send; E_recv])) (go_start newScheduler 0)
  = Some (set_stopper EDone (go_start (with_closer (Buffered 1 []) newScheduler) 0)).
Proof.
  apply (end_without_start_returns newScheduler 0 2 eq_refl).
Defined.

(** ** What the worker never does *)

Lemma stopped_step (F : list Time) (l : label) (σ σ' : System) :
  (worker σ = WDefer \/ worker σ = WDone) /\ fired σ = F ->
  step l σ = Some σ' ->
  (worker σ' = WDefer \/ worker σ' = WDone) /\ fired σ' = F.
Proof.
  intros (Hw & Hf). revert Hw Hf.
  step_cases l σ; intros Hw Hf; try (destruct Hw; discriminate);
    solve_step; simpl; auto.
Qed.

(** X5. Once the worker's select has taken the stop request, at the
    initial wait or at an interval wait, the callback is never invoked
    again, whatever moves follow. *)
Theorem stop_observed_no_more_firings (σ σ1 σ' : System) (ls : list label) :
  step W_closer σ = Some σ1 ->
  run ls σ1 = Some σ' ->
  fired σ' = fired σ.
Proof.
  intros Hstep Hrun.
  assert (H1 : (worker σ1 = WDefer \/ worker σ1 = WDone) /\ fired σ1 = fired σ).
  { revert Hstep. simpl. unfold worker_step.
    destruct σ as [s c w e F]; simpl. destruct w; try discriminate;
      solve_step; simpl; auto. }
  apply (run_invariant
           (fun τ => (worker τ = WDefer \/ worker τ = WDone) /\ fired τ = fired σ)
           (stopped_step (fired σ)) ls σ1 σ' H1 Hrun).
Qed.

Lemma stop_observed_no_more_firings_witness :
  fired {| sched := with_closer (Buffered 1 [true]) (Every 3 newScheduler);
           clock := 9; worker := WDone; stopper := EWait; fired := [0] |}
  = [0].
Proof.
  apply (stop_observed_no_more_firings
           {| sched := with_closer (Buffered 1 [true]) (Every 3 newScheduler);
              clock := 0; worker := WSelect2 farFuture 3; stopper := EWait;
              fired := [0] |}
           {| sched := with_closer (Buffered 1 []) (Every 3 newScheduler);
              clock := 0; worker := WDefer; stopper := EWait; fired := [0] |}
           {| sched := with_closer (Buffered 1 [true]) (Every 3 newScheduler);
              clock := 9; worker := WDone; stopper := EWait; fired := [0] |}
           [Tick 9; W_run] eq_refl eq_refl).
Defined.

(** ** Order and spacing of the firings *)

Lemma spaced_snoc (gap : Z) (l : list Time) (x : Time) :
  spaced gap l ->
  (forall y, last l = Some y -> y + gap <= x) ->
  spaced gap (l ++ [x]).
Proof.
  induction l as [|a l IH]; intros Hs Hl; simpl; [exact I|].
  destruct l as [|b l]; simpl.
  - split; [|exact I]. apply Hl. reflexivity.
  - simpl in Hs. destruct Hs as (Hab & Hs). split; [exact Hab|].
    apply IH; [exact Hs|]. intros y Hy. apply Hl. exact Hy.
Qed.

Ltac solve_step_eq :=
  repeat match goal with
         | |- (if ?b then _ else _) = Some _ -> _ => destruct b eqn:?
         | |- match ?x with Some _ => _ | None => _ end = Some _ -> _ =>
             destruct x as [[? ?]|] eqn:?
         | |- match ?x with Some _ => _ | None => _ end = Some _ -> _ =>
             destruct x eqn:?
         | |- Some _ = Some _ -> _ =>
             let H := fresh in intros H; injection H as <-
         | |- None = Some _ -> _ => discriminate
         end;
  repeat match goal with
         | H : (_ <=? _) = true |- _ => apply Z.leb_le in H
         | H : (_ <? _) = true |- _ => apply Z.ltb_lt in H
         | H : (_ <=? _) = false |- _ => apply Z.leb_gt in H
         | H : (_ <? _) = false |- _ => apply Z.ltb_ge in H
         end.

Lemma spacing_inv_step (i : Duration) (l : label) (σ σ' : System) :
  spacing_inv i σ -> step l σ = Some σ' -> spacing_inv i σ'.
Proof.
  unfold spacing_inv. intros (He & Hs & Hw). revert He Hs Hw.
  step_cases l σ; intros He Hs Hw; solve_step_eq; simpl;
    try (split; [exact He|split; [exact Hs|]]);
    try exact I; try exact Hw;
    try (subst fs; simpl; intros y Hy; discriminate);
    try (intros y Hy; specialize (Hw y Hy); lia);
    try (split; [exact He|split; [apply spaced_snoc; assumption|]];
         try exact I; intros y Hy; rewrite last_snoc in Hy;
         injection Hy as <-; unfold Add; lia).
Qed.

(** X6. In every interleaving and on every clock, the instants at which
    the callback of one scheduler was invoked are in order and at least
    one interval apart. *)
Theorem firings_spaced (s : Scheduler) (now : Time) (ls : list label) (σ : System) :
  run ls (go_start s now) = Some σ ->
  spaced (every s) (fired σ).
Proof.
  intros Hrun.
  apply (run_invariant (spacing_inv (every s)) (spacing_inv_step (every s))
           ls _ _) in Hrun; [apply Hrun|].
  unfold spacing_inv; simpl. auto.
Qed.

Lemma firings_spaced_witness :
  spaced 3 [0; 4].
Proof.
  apply (firings_spaced (Every 3 newScheduler) 0
           [W_run; W_timer; W_run; Tick 4; W_timer; W_run]
           {| sched := Every 3 newScheduler; clock := 4;
              worker := WSelect2 farFuture 7; stopper := EIdle; fired := [0; 4] |}
           eq_refl).
Defined.

Lemma early_inv_step (s0 : Scheduler) (now : Time) (l : label) (σ σ' : System) :
  at_ s0 - now <= maxDuration ->
  early_inv s0 now σ -> step l σ = Some σ' -> early_inv s0 now σ'.
Proof.
  intros Hfit. unfold early_inv. intros (Ha & Haf & Hck & Hf & Hw).
  revert Ha Haf Hck Hf Hw.
  pose proof minDuration_neg as Hmin. pose proof maxDuration_pos as Hmax.
  step_cases l σ; intros Ha Haf Hck Hf Hw; solve_step_eq; simpl;
    repeat (split; [first [assumption | lia]|]);
    try exact I; try assumption; try lia;
    try (apply Forall_app; split; [assumption|constructor; [lia|constructor]]);
    try (split; [apply Forall_app; split;
                   [assumption|constructor; [lia|constructor]]|]; try exact I; lia).
  (* the entry of the first select *)
  all: unfold earliest, resolveSleep, Add, Sub, IsZero; rewrite Ha, Haf;
    split_tests; simpl; lia.
Qed.

(** X7. The callback is never invoked early: on every clock and in every
    interleaving, each firing of a schedule started at [now] is at or
    after [now + after] when After is set, and otherwise at or after the
    instant of At when At is set (and its distance from [now] fits a
    duration). *)
Theorem never_fires_early (s : Scheduler) (now : Time) (ls : list label)
  (σ : System) :
  at_ s - now <= maxDuration ->
  run ls (go_start s now) = Some σ ->
  Forall (fun x => earliest s now <= x) (fired σ).
Proof.
  intros Hfit Hrun.
  apply (run_invariant (early_inv s now)
           (fun l τ τ' => early_inv_step s now l τ τ' Hfit) ls _ _) in Hrun;
    [apply Hrun|].
  unfold early_inv; simpl. repeat split; try lia. constructor.
Qed.

Lemma never_fires_early_witness :
  Forall (fun x => earliest (After 5 newScheduler) 0 <= x) [6].
Proof.
  apply (never_fires_early (After 5 newScheduler) 0
           [W_run; Tick 6; W_timer; W_run]
           {| sched := After 5 newScheduler; clock := 6; worker := WDefer;
              stopper := EIdle; fired := [6] |});
    [vm_compute; discriminate | reflexivity].
Defined.

(** ** More schedules on the ideal clock *)

(** X8. [Every i] with [Until u] and no start condition, on the ideal
    clock: the callback fires at once, then every [i], at exactly the
    instants strictly before [u]; when [u] is not after [now] it does not
    fire at all.  The worker then exits. *)
Theorem Every_Until_firings (now u : Time) (i : Duration) (fuel : nat) :
  0 < i -> u <> 0 ->
  (3 * until_count now u i + 4 <= fuel)%nat ->
  exists σ',
    ideal_run fuel (go_start (Until u (Every i newScheduler)) now) = Finished σ'
    /\ exited σ' = true
    /\ fired σ' = firings now i (until_count now u i)
    /\ Forall (fun x => x < u) (fired σ')
    /\ u <= now + Z.of_nat (List.length (fired σ')) * i.
Proof.
  intros Hi Hu Hfuel.
  set (n := until_count now u i) in *.
  set (s := Until u (Every i newScheduler)).
  assert (Hn : u <= now + Z.of_nat n * i
               /\ ((0 < n)%nat -> now + (Z.of_nat n - 1) * i < u)).
  { unfold n, until_count. destruct (Z.leb_spec u now) as [Hle|Hlt].
    - simpl. split; [lia|intros; lia].
    - destruct (firing_count_bounds (u - now) i Hi ltac:(lia)) as (_ & Hge & Hl).
      split; [lia|intros _; lia]. }
  destruct Hn as (Hge & Hlast).
  destruct (ideal_loop n 0 s now u EIdle []) as (σ' & Hrun & Hfired & Hx);
    try reflexivity; simpl; try assumption.
  exists σ'. split.
  - apply ideal_run_more with (n := (3 * n + 4)%nat); [|exact Hfuel].
    remember (3 * n + 2 + 0)%nat as k eqn:Hk.
    destruct k as [|m]; [lia|].
    replace (3 * n + 4)%nat with (S (S (S m))) by lia.
    rewrite ideal_run_S. unfold ideal_label; simpl.
    unfold worker_step, isActivated, resolveSleep; simpl.
    assert (Hi' : (0 <? i) = true) by (apply Z.ltb_lt; lia).
    rewrite Hi'; sys_simpl. rewrite ideal_select1.
    assert (H1 : (now <? Add now 0) = false) by (apply Z.ltb_ge; unfold Add; lia).
    rewrite H1. unfold getUntil, IsZero; simpl.
    assert (Hu' : (u =? 0) = false) by (apply Z.eqb_neq; exact Hu).
    rewrite Hu'. simpl.
    exact Hrun.
  - split; [exact Hx|]. simpl in Hfired. rewrite Hfired.
    split; [reflexivity|]. split.
    + apply firings_before; assumption.
    + rewrite firings_length. exact Hge.
Qed.

Lemma Every_Until_firings_witness :
  exists σ',
    ideal_run 16 (go_start (Until 300 (Every 80 newScheduler)) 1) = Finished σ'
    /\ exited σ' = true
    /\ fired σ' = firings 1 80 (until_count 1 300 80)
    /\ Forall (fun x => x < 300) (fired σ')
    /\ 300 <= 1 + Z.of_nat (List.length (fired σ')) * 80.
Proof.
  apply (Every_Until_firings 1 300 80 16);
    first [ reflexivity | discriminate | vm_compute; lia ].
Defined.

Lemma spin_rounds (n : nat) :
  forall (s : Scheduler) (t cutoff : Time) (e : epc) (F : list Time),
    every s < 0 -> t < cutoff ->
    run (concat (replicate n [W_run; W_timer]))
      {| sched := s; clock := t; worker := WLoop cutoff; stopper := e; fired := F |}
    = Some {| sched := s; clock := t; worker := WLoop cutoff; stopper := e;
              fired := F ++ replicate n t |}.
Proof.
  induction n as [|n IH]; intros s t cutoff e F He Ht; simpl.
  - rewrite app_nil_r. reflexivity.
  - unfold worker_step, Before, Add; simpl.
    assert (H1 : (t <? cutoff) = true) by (apply Z.ltb_lt; lia).
    assert (H2 : (every s =? 0) = false) by (apply Z.eqb_neq; lia).
    assert (H3 : (t + every s <=? t) = true) by (apply Z.leb_le; lia).
    rewrite H1, H2. sys_simpl. rewrite H3. sys_simpl.
    rewrite IH by assumption. rewrite <- app_assoc. reflexivity.
Qed.

Lemma spin_never_finishes (fuel : nat) :
  forall (s : Scheduler) (t cutoff : Time) (e : epc),
    every s < 0 -> t < cutoff ->
    (forall F, ideal_run fuel {| sched := s; clock := t; worker := WLoop cutoff;
                                 stopper := e; fired := F |} = OutOfFuel)
    /\ (forall F deadline, deadline <= t ->
        ideal_run fuel {| sched := s; clock := t;
                          worker := WSelect2 cutoff deadline;
                          stopper := e; fired := F |} = OutOfFuel).
Proof.
  induction fuel as [|fuel IH]; intros s t cutoff e He Ht.
  - split; intros; rewrite ideal_run_0; unfold ideal_label; simpl;
      try destruct (t <? deadline); reflexivity.
  - destruct (IH s t cutoff e He Ht) as (IH1 & IH2). split.
    + intros F. rewrite ideal_run_S. unfold ideal_label; simpl.
      unfold worker_step, Before, Add; simpl.
      assert (H1 : (t <? cutoff) = true) by (apply Z.ltb_lt; lia).
      assert (H2 : (every s =? 0) = false) by (apply Z.eqb_neq; lia).
      rewrite H1, H2. sys_simpl. apply IH2. lia.
    + intros F deadline Hd. rewrite ideal_run_S. unfold ideal_label; simpl.
      assert (H1 : (t <? deadline) = false) by (apply Z.ltb_ge; lia).
      assert (H3 : (deadline <=? t) = true) by (apply Z.leb_le; lia).
      rewrite H1. simpl. unfold worker_step; simpl. rewrite H3. sys_simpl.
      apply IH1.
Qed.

(** X9. A negative interval passes validation, and the worker then spins:
    with [After d] and [Every e], [e] negative, the interval timer is due
    at once, so on the ideal clock the callback is invoked again and again
    at the instant [now + d], any number of times, and the worker never
    finishes. *)
Theorem negative_Every_spins (now : Time) (d e : Duration) (n fuel : nat) :
  0 < d -> e < 0 -> now + d < farFuture ->
  validate (Every e (After d newScheduler)) = None
  /\ run (spin d n) (go_start (Every e (After d newScheduler)) now)
     = Some {| sched := Every e (After d newScheduler); clock := now + d;
               worker := WLoop farFuture; stopper := EIdle;
               fired := replicate n (now + d) |}
  /\ ideal_run fuel (go_start (Every e (After d newScheduler)) now) = OutOfFuel.
Proof.
  intros Hd He Hfar.
  assert (Hd' : (0 <? d) = true) by (apply Z.ltb_lt; lia).
  assert (Hle : (now + d <=? now + d) = true) by (apply Z.leb_le; lia).
  split; [|split].
  - unfold validate, IsZero; simpl. reflexivity.
  - unfold spin. rewrite run_app. simpl.
    unfold worker_step, isActivated, resolveSleep, Add, getUntil; simpl.
    rewrite Hd'. sys_simpl. rewrite ?Hd'. sys_simpl. rewrite Hle. sys_simpl.
    rewrite spin_rounds by (simpl; lia). reflexivity.
  - destruct fuel as [|fuel]; [reflexivity|].
    rewrite ideal_run_S. unfold ideal_label; simpl.
    unfold worker_step, isActivated, resolveSleep; simpl.
    rewrite Hd'. sys_simpl.
    destruct fuel as [|[|fuel]].
    + rewrite ideal_run_0. unfold ideal_label; simpl.
      destruct (now <? Add now d); reflexivity.
    + rewrite ideal_run_S. unfold ideal_label; simpl.
      assert (H1 : (now <? Add now d) = true) by (apply Z.ltb_lt; unfold Add; lia).
      rewrite H1. simpl.
      assert (H2 : (0 <? Add now d - now) = true) by (apply Z.ltb_lt; unfold Add; lia).
      rewrite H2. sys_simpl. rewrite ideal_run_0. unfold ideal_label; simpl.
      destruct (now + (Add now d - now) <? Add now d); reflexivity.
    + rewrite ideal_select1.
      assert (H1 : (now <? Add now d) = true) by (apply Z.ltb_lt; unfold Add; lia).
      rewrite H1. unfold getUntil, Add; simpl.
      apply spin_never_finishes; simpl; lia.
Qed.

Lemma negative_Every_spins_witness :
  validate (Every (-1) (After 5 newScheduler)) = None
  /\ run (spin 5 3) (go_start (Every (-1) (After 5 newScheduler)) 0)
     = Some {| sched := Every (-1) (After 5 newScheduler); clock := 0 + 5;
               worker := WLoop farFuture; stopper := EIdle;
               fired := replicate 3 (0 + 5) |}
  /\ ideal_run 50 (go_start (Every (-1) (After 5 newScheduler)) 0) = OutOfFuel.
Proof.
  apply (negative_Every_spins 0 5 (-1) 3 50); reflexivity.
Defined.

(** ** More of the output target *)

(** [ToFile] on a path at which no file can be made returns the path
    error of [os.Create] and changes neither the target (an earlier writer
    and an earlier owned file stay installed) nor the files. *)
Theorem ToFile_failure_changes_nothing (file : string) (t : Target.targeter)
  (fs : Target.FS) :
  Target.creatable fs file = false ->
  Target.ToFile file t fs = (Some (PathError "open" file), t, fs).
Proof.
  intros H. unfold Target.ToFile, Target.os_Create. rewrite H. reflexivity.
Qed.

Lemma ToFile_failure_changes_nothing_witness :
  Target.ToFile "/no/dir/out" Target.zeroTargeter
    {| Target.creatable := fun _ => false; Target.files := [] |}
  = (Some (PathError "open" "/no/dir/out"), Target.zeroTargeter,
     {| Target.creatable := fun _ => false; Target.files := [] |}).
Proof.
  apply (ToFile_failure_changes_nothing "/no/dir/out" Target.zeroTargeter
           {| Target.creatable := fun _ => false; Target.files := [] |} eq_refl).
Defined.

(** X10. [ToWriter] after a successful [ToFile] redirects the output but
    keeps the file as the owned closer: the file is still open, nothing
    writes to it any more, and [end] closes it, once. *)
Theorem ToWriter_keeps_owned_file (file : string) (w : Target.Writer)
  (t t' : Target.targeter) (fs fs' : Target.FS) (n : nat) :
  Target.ToFile file t fs = (None, t', fs') ->
  exists h,
    Target.writer (Target.ToWriter w t') = Some w
    /\ Target.closer (Target.ToWriter w t') = Some h
    /\ Target.file_status fs' h = Some Target.Open
    /\ Target.file_status (Target.end_times (S n) (Target.ToWriter w t') fs') h
       = Some Target.Closed
    /\ Target.file_releases (Target.end_times (S n) (Target.ToWriter w t') fs') h
       = Some 1%nat.
Proof.
  intros Hok. destruct (ToFile_success _ _ _ _ _ Hok) as (-> & ->).
  exists (List.length (Target.files fs)).
  set (h := List.length (Target.files fs)).
  set (f := {| Target.path := file; Target.status := Target.Open;
               Target.releases := 0 |}).
  set (fs1 := {| Target.creatable := Target.creatable fs;
                 Target.files := Target.files fs ++ [f] |}).
  assert (Hl : Target.files fs1 !! h = Some f).
  { simpl. apply list_lookup_middle. reflexivity. }
  set (t1 := Target.ToWriter w
               {| Target.writer := Some (Target.FileWriter h);
                  Target.closer := Some h |}).
  destruct (end_times_owned n t1 fs1 h f eq_refl Hl eq_refl) as (Hn & Hend).
  unfold Target.file_status, Target.file_releases.
  rewrite Hn, Hend, Hl. repeat split; reflexivity.
Qed.

Lemma ToWriter_keeps_owned_file_witness :
  exists h,
    Target.writer (Target.ToWriter (Target.ExternalWriter 7)
                     {| Target.writer := Some (Target.FileWriter 0);
                        Target.closer := Some 0%nat |})
    = Some (Target.ExternalWriter 7)
    /\ Target.closer (Target.ToWriter (Target.ExternalWriter 7)
                        {| Target.writer := Some (Target.FileWriter 0);
                           Target.closer := Some 0%nat |}) = Some h.
Proof.
  destruct (ToWriter_keeps_owned_file "out.csv" (Target.ExternalWriter 7)
              Target.zeroTargeter
              {| Target.writer := Some (Target.FileWriter 0);
                 Target.closer := Some 0%nat |}
              {| Target.creatable := fun _ => true; Target.files := [] |}
              {| Target.creatable := fun _ => true;
                 Target.files := [ {| Target.path := "out.csv";
                                      Target.status := Target.Open;
                                      Target.releases := 0 |} ] |}
              0 eq_refl) as (h & Hw & Hc & _).
  exists h. auto.
Defined.

Lemma end_keeps_shape (t : Target.targeter) (fs : Target.FS) :
  Target.creatable (Target.end_ t fs) = Target.creatable fs
  /\ List.length (Target.files (Target.end_ t fs)) = List.length (Target.files fs)
  /\ (forall h f, Target.files (Target.end_ t fs) !! h = Some f ->
      exists f0, Target.files fs !! h = Some f0
                 /\ Target.path f = Target.path f0
                 /\ (Target.releases f0 <= Target.releases f)%nat).
Proof.
  unfold Target.end_, Target.os_Close.
  destruct (Target.closer t) as [h'|]; [|repeat split; eauto].
  destruct (Target.files fs !! h') as [f'|] eqn:E; [|repeat split; eauto].
  destruct (Target.status f'); [|repeat split; eauto].
  simpl. split; [reflexivity|]. split; [apply length_insert|].
  intros h f Hl. destruct (Nat.eq_dec h' h) as [->|Hne].
  - rewrite list_lookup_insert_eq in Hl by (apply lookup_lt_is_Some; eauto).
    injection Hl as <-. exists f'. simpl. auto.
  - rewrite list_lookup_insert_ne in Hl by exact Hne. eauto.
Qed.

(** X11. [end] never touches a file that the target does not own, never
    makes or removes a file, and never reopens one: whatever the target
    and the files, any number of calls leaves every file other than the
    owned one exactly as it was, and the number of files unchanged. *)
Theorem end_touches_only_owned (n : nat) (t : Target.targeter) (fs : Target.FS)
  (h : nat) :
  Target.closer t <> Some h ->
  Target.files (Target.end_times n t fs) !! h = Target.files fs !! h
  /\ List.length (Target.files (Target.end_times n t fs))
     = List.length (Target.files fs).
Proof.
  intros Hne. split; [apply end_times_other_file; exact Hne|].
  clear Hne. revert fs. induction n as [|n IH]; intros fs; simpl; [reflexivity|].
  rewrite IH. apply end_keeps_shape.
Qed.

Lemma end_touches_only_owned_witness :
  Target.files
    (Target.end_times 2
       {| Target.writer := None; Target.closer := Some 1%nat |}
       {| Target.creatable := fun _ => true;
          Target.files :=
            [ {| Target.path := "a"; Target.status := Target.Open;
                 Target.releases := 0 |};
              {| Target.path := "b"; Target.status := Target.Open;
                 Target.releases := 0 |} ] |}) !! 0%nat
  = Some {| Target.path := "a"; Target.status := Target.Open;
            Target.releases := 0 |}.
Proof.
  apply (end_touches_only_owned 2
           {| Target.writer := None; Target.closer := Some 1%nat |}
           {| Target.creatable := fun _ => true;
              Target.files :=
                [ {| Target.path := "a"; Target.status := Target.Open;
                     Target.releases := 0 |};
                  {| Target.path := "b"; Target.status := Target.Open;
                     Target.releases := 0 |} ] |} 0%nat).
  discriminate.
Defined.

(** ** More of the base action *)

Lemma configure_snoc (calls : list Action.setup) (c : Action.setup)
  (st : Action.BaseAction * Target.FS) :
  Action.configure (calls ++ [c]) st
  = Action.apply_setup (Action.configure calls st) c.
Proof. unfold Action.configure. rewrite fold_left_app. reflexivity. Qed.

(** X12. The scheduler setters of a fluent chain always apply: the
    scheduler of the configured action is the one that the chain's After,
    At, Every, For and Until calls build, in their order, whatever the file
    system is and whether or not a [ToFile] of the chain failed. *)
Theorem configure_scheduler (calls : list Action.setup) (b : Action.BaseAction)
  (fs : Target.FS) :
  Action.scheduler (fst (Action.configure calls (b, fs)))
  = fold_left sched_setup calls (Action.scheduler b).
Proof.
  revert b fs. induction calls as [|c calls IH]; intros b fs; [reflexivity|].
  rewrite configure_cons. simpl fold_left.
  destruct c; simpl; try (rewrite IH; reflexivity).
  unfold Action.ToFile.
  destruct (Action.lastErr b); [rewrite IH; reflexivity|].
  destruct (Target.ToFile f (Action.targeter b) fs) as [[err t'] fs'].
  rewrite IH. reflexivity.
Qed.

Lemma configure_files_after_error (calls : list Action.setup)
  (b : Action.BaseAction) (fs : Target.FS) (err : error) :
  Action.lastErr b = Some err ->
  snd (Action.configure calls (b, fs)) = fs
  /\ Action.targeter (fst (Action.configure calls (b, fs)))
     = fold_left (fun t c => match c with
                             | Action.SetToWriter w => Target.ToWriter w t
                             | _ => t
                             end) calls (Action.targeter b).
Proof.
  revert b. induction calls as [|c calls IH]; intros b Hb; [auto|].
  rewrite configure_cons.
  destruct c; simpl;
    try (match goal with
         | |- context [Action.configure calls (?b', fs)] => exact (IH b' Hb)
         end).
  unfold Action.ToFile. rewrite Hb. apply IH. exact Hb.
Qed.

Lemma ToWriter_fold_closer (calls : list Action.setup) (t : Target.targeter) :
  Target.closer
    (fold_left (fun t c => match c with
                           | Action.SetToWriter w => Target.ToWriter w t
                           | _ => t
                           end) calls t)
  = Target.closer t.
Proof.
  revert t. induction calls as [|c calls IH]; intros t; [reflexivity|].
  simpl fold_left. destruct c; rewrite IH; reflexivity.
Qed.

(** X13. Once a [ToFile] of a fluent chain has failed, no later [ToFile]
    is tried: the rest of the chain creates no file and changes no file,
    and it changes the target only through its [ToWriter] calls. *)
Theorem failed_ToFile_stops_file_creation (calls : list Action.setup)
  (f : string) (b : Action.BaseAction) (fs : Target.FS) :
  Action.lastErr b = None ->
  Target.creatable fs f = false ->
  snd (Action.configure (Action.SetToFile f :: calls) (b, fs)) = fs
  /\ Action.lastErr (fst (Action.configure (Action.SetToFile f :: calls) (b, fs)))
     = Some (PathError "open" f)
  /\ Target.closer
       (Action.targeter (fst (Action.configure (Action.SetToFile f :: calls) (b, fs))))
     = Target.closer (Action.targeter b).
Proof.
  intros Hb Hf. rewrite configure_cons. simpl.
  unfold Action.ToFile. rewrite Hb.
  rewrite (ToFile_failure_changes_nothing f (Action.targeter b) fs Hf).
  set (b1 := {| Action.scheduler := Action.scheduler b;
                Action.targeter := Action.targeter b;
                Action.signaler := Action.signaler b;
                Action.lastErr := Some (PathError "open" f) |}).
  destruct (configure_files_after_error calls b1 fs (PathError "open" f) eq_refl)
    as (Hfs & Ht).
  split; [exact Hfs|]. split; [apply configure_sticky; reflexivity|].
  rewrite Ht. apply ToWriter_fold_closer.
Qed.

Lemma failed_ToFile_stops_file_creation_witness :
  snd (Action.configure
         [Action.SetToFile "/no/dir/a"; Action.SetToFile "ok.csv"]
         (Action.NewAction,
          {| Target.creatable := fun p => String.eqb p "ok.csv";
             Target.files := [] |}))
  = {| Target.creatable := fun p => String.eqb p "ok.csv"; Target.files := [] |}.
Proof.
  apply (failed_ToFile_stops_file_creation [Action.SetToFile "ok.csv"] "/no/dir/a"
           Action.NewAction
           {| Target.creatable := fun p => String.eqb p "ok.csv";
              Target.files := [] |} eq_refl eq_refl).
Defined.

(** ** [parallel] *)

(** X14. [parallel] launches every function it is given, in order, and its
    wait group is counted up once per function and never down: it returns
    exactly when it was given no function. *)
Theorem parallel_launches_all_and_waits {T : Type} (fns : list T) :
  parallel_launch fns = (List.length fns, fns)
  /\ (parallel_returns fns = true <-> fns = []).
Proof.
  split; [|apply parallel_returns_iff].
  unfold parallel_launch.
  assert (H : forall acc : nat * list T,
             fold_left (fun acc fn => (S (fst acc), snd acc ++ [fn])) fns acc
             = ((List.length fns + fst acc)%nat, snd acc ++ fns)).
  { induction fns as [|fn fns IH]; intros acc; simpl.
    - rewrite app_nil_r. destruct acc; reflexivity.
    - rewrite IH. simpl. rewrite <- app_assoc. f_equal. lia. }
  rewrite H. simpl. f_equal. lia.
Qed.

(** ** The host *)

(** X15. [Boot] of actions that all start: every action is started, in
    order, none is ended, the host owns them after the ones it already
    had, and [Boot] returns [nil]. *)
Theorem Boot_all_started {A : Type} (start_error : A -> option error)
  (end_returns : A -> bool) (acts : list A) (s : Host.Swat A) :
  Forall (fun a => start_error a = None) acts ->
  Host.Boot A start_error end_returns acts s
  = (map (Host.StartCalled A) acts,
     {| Host.actions := Host.actions A s ++ acts |},
     Host.Returned None).
Proof.
  intros Hall. revert s. induction Hall as [|a acts Ha Hall IH]; intros s; simpl.
  - rewrite app_nil_r. destruct s; reflexivity.
  - rewrite Ha, IH. simpl. rewrite <- app_assoc. reflexivity.
Qed.

Lemma Boot_all_started_witness :
  Host.Boot nat (fun _ => None) (fun _ => true) [1%nat; 2%nat]
    {| Host.actions := [] |}
  = (map (Host.StartCalled nat) [1%nat; 2%nat],
     {| Host.actions := [] ++ [1%nat; 2%nat] |}, Host.Returned None).
Proof.
  apply (Boot_all_started (fun _ : nat => None) (fun _ => true) [1%nat; 2%nat]
           {| Host.actions := [] |}).
  repeat constructor.
Defined.

(** X16. [Boot] at the first action whose [Start] fails: the actions
    before it were started, in order, and so was the failing one; the
    actions after it are never started; [End] is then called on the
    actions the host owns, which are the ones it had plus the ones started
    before the failure, and not on the failing one; the host keeps owning
    them afterwards; and [Boot] returns the error of the failing action,
    provided all those [End] calls return, and otherwise does not
    return. *)
Theorem Boot_first_failure {A : Type} (start_error : A -> option error)
  (end_returns : A -> bool) (pre post : list A) (a : A) (err : error)
  (s : Host.Swat A) :
  Forall (fun x => start_error x = None) pre ->
  start_error a = Some err ->
  Host.Boot A start_error end_returns (pre ++ a :: post) s
  = (map (Host.StartCalled A) (pre ++ [a])
       ++ map (Host.EndCalled A) (Host.actions A s ++ pre),
     {| Host.actions := Host.actions A s ++ pre |},
     if forallb end_returns (Host.actions A s ++ pre)
     then Host.Returned (Some err) else Host.Hung).
Proof.
  intros Hall Ha. revert s. induction Hall as [|x pre Hx Hall IH]; intros s; simpl.
  - rewrite Ha. rewrite app_nil_r. unfold Host.End; simpl.
    destruct s as [l]; simpl. f_equal.
    unfold Wait_returns. induction l as [|y l IHl]; simpl; [reflexivity|].
    destruct (end_returns y) eqn:Ey; simpl; [exact IHl|reflexivity].
  - rewrite Hx, IH. simpl. rewrite <- !app_assoc. reflexivity.
Qed.

Lemma Boot_first_failure_witness :
  Host.Boot nat (fun n => if (n =? 3)%nat then Some (ErrorString "no") else None)
    (fun _ => true) ([1%nat; 2%nat] ++ 3%nat :: [4%nat]) {| Host.actions := [] |}
  = (map (Host.StartCalled nat) ([1%nat; 2%nat] ++ [3%nat])
       ++ map (Host.EndCalled nat) ([] ++ [1%nat; 2%nat]),
     {| Host.actions := [] ++ [1%nat; 2%nat] |},
     if forallb (fun _ => true) ([] ++ [1%nat; 2%nat])
     then Host.Returned (Some (ErrorString "no")) else Host.Hung).
Proof.
  apply (Boot_first_failure
           (fun n => if (n =? 3)%nat then Some (ErrorString "no") else None)
           (fun _ => true) [1%nat; 2%nat] [4%nat] 3%nat (ErrorString "no")
           {| Host.actions := [] |}).
  - repeat constructor.
  - reflexivity.
Defined.

(** X17. A host of base actions: [End] of the host returns exactly when
    the host owns no action, because the [End] of a base action does not
    return. *)
Theorem Host_End_of_base_actions (s : Host.Swat Action.BaseAction) :
  snd (Host.End Action.BaseAction Action.End_returns s) = true
  <-> Host.actions Action.BaseAction s = [].
Proof.
  unfold Host.End, Wait_returns; simpl.
  destruct (Host.actions Action.BaseAction s) as [|b l]; simpl.
  - split; reflexivity.
  - split; discriminate.
Qed.

(** ** The signal trigger *)

Lemma sig_run_invariant (P : SignalRun.SigSystem -> Prop) :
  (forall l σ σ', P σ -> SignalRun.step l σ = Some σ' -> P σ') ->
  forall ls σ σ', P σ -> SignalRun.run ls σ = Some σ' -> P σ'.
Proof.
  intros Hstep. induction ls as [|l ls IH]; simpl; intros σ σ' HP Hrun.
  - congruence.
  - destruct (SignalRun.step l σ) as [σ1|] eqn:E; [|discriminate]. eauto.
Qed.

Ltac sig_cases l σ :=
  destruct l; simpl; unfold SignalRun.worker_step, SignalRun.stopper_step;
  destruct σ as [g p r w e k a]; simpl; destruct w; destruct e; simpl.

Lemma sig_inv_step (l : SignalRun.slabel) (σ σ' : SignalRun.SigSystem) :
  SignalRun.sig_inv σ -> SignalRun.step l σ = Some σ' -> SignalRun.sig_inv σ'.
Proof.
  unfold SignalRun.sig_inv, SignalRun.heard, SignalRun.arrive.
  intros (Hc & Hr). revert Hc Hr.
  sig_cases l σ; intros Hc Hr;
    try (destruct p as [|sg0 p]); simpl in *;
    solve_step; simpl;
    try (split; [first [exact Hc | simpl in Hc; lia]
                |first [exact Hr | intros; discriminate
                       | intros Hf; destruct (Hr Hf); discriminate]]);
    try (rewrite List.filter_app, length_app; simpl;
         destruct r; simpl;
         [ destruct (SignalRun.listens g sg) eqn:El; simpl;
           try rewrite length_app; simpl; split; first [lia | intros; discriminate]
         | split; [destruct (SignalRun.listens g sg); simpl; lia | exact Hr] ]).
Qed.

(** X18. The signal trigger never fires spuriously: in every interleaving
    of the worker, the stopper and the arrival of signals, the callback
    has been invoked at most as many times as signals of the configured
    set were raised; with an empty set it is never invoked. *)
Theorem signaler_fires_only_on_heard_signals (s : Signal.signaler)
  (ls : list SignalRun.slabel) (σ : SignalRun.SigSystem) :
  SignalRun.run ls (SignalRun.go_start s) = Some σ ->
  (SignalRun.calls σ <= List.length (SignalRun.heard σ))%nat
  /\ (Signal.signals s = [] -> SignalRun.calls σ = 0%nat).
Proof.
  intros Hrun. split.
  - apply (sig_run_invariant SignalRun.sig_inv sig_inv_step ls _ _) in Hrun.
    + destruct Hrun as (H & _). lia.
    + unfold SignalRun.sig_inv; simpl. auto.
  - intros Hs.
    apply (sig_run_invariant
             (fun τ => Signal.signals (SignalRun.sig τ) = []
                       /\ SignalRun.calls τ = 0%nat
                       /\ SignalRun.sworker τ <> SignalRun.SLoop) ) in Hrun.
    + apply Hrun.
    + clear. intros l σ σ' (Hs & Hc & Hw). revert Hs Hc Hw.
      sig_cases l σ; intros Hs Hc Hw; try rewrite Hs; simpl;
        try congruence; solve_step; simpl; auto; repeat split; auto; discriminate.
    + simpl. repeat split; auto; discriminate.
Qed.

Lemma signaler_fires_only_on_heard_signals_witness :
  (1 <= List.length
          (SignalRun.heard
             {| SignalRun.sig := Signal.OnSignal [10%nat] Signal.zeroSignaler;
                SignalRun.pending := []; SignalRun.registered := true;
                SignalRun.sworker := SignalRun.SLoop; SignalRun.sstopper := EIdle;
                SignalRun.calls := 1;
                SignalRun.arrived := [10%nat; 10%nat; 12%nat] |}))%nat.
Proof.
  apply (signaler_fires_only_on_heard_signals
           (Signal.OnSignal [10%nat] Signal.zeroSignaler)
           [SignalRun.S_run; SignalRun.Arrive 10; SignalRun.Arrive 10;
            SignalRun.Arrive 12; SignalRun.S_signal]
           {| SignalRun.sig := Signal.OnSignal [10%nat] Signal.zeroSignaler;
              SignalRun.pending := []; SignalRun.registered := true;
              SignalRun.sworker := SignalRun.SLoop; SignalRun.sstopper := EIdle;
              SignalRun.calls := 1;
              SignalRun.arrived := [10%nat; 10%nat; 12%nat] |} eq_refl).
Defined.

Lemma sig_nil_inv_step (l : SignalRun.slabel) (σ σ' : SignalRun.SigSystem) :
  SignalRun.sig_nil_inv σ -> SignalRun.step l σ = Some σ' ->
  SignalRun.sig_nil_inv σ'.
Proof.
  unfold SignalRun.sig_nil_inv. intros (Hc & He & Hw). revert Hc He Hw.
  sig_cases l σ; intros Hc He Hw; try rewrite Hc; simpl;
    try congruence; try (destruct p); solve_step; simpl;
    repeat split; auto; discriminate.
Qed.

(** X19. The signaler of an action made by [NewAction], whatever signals
    [OnSignal] gives it, has the nil closer of [new(signaler)]: in no
    interleaving does its worker exit or its [end] return. *)
Theorem NewAction_signaler_end_blocks (sigs : list nat)
  (ls : list SignalRun.slabel) (σ : SignalRun.SigSystem) :
  SignalRun.run ls
    (SignalRun.go_start
       (Action.signaler (Action.OnSignal sigs Action.NewAction))) = Some σ ->
  SignalRun.sstopper σ <> EDone /\ SignalRun.sworker σ <> SignalRun.SDone.
Proof.
  intros Hrun.
  apply (sig_run_invariant SignalRun.sig_nil_inv sig_nil_inv_step ls _ _) in Hrun.
  - destruct Hrun as (_ & He & Hw). auto.
  - unfold SignalRun.sig_nil_inv; simpl. repeat split; discriminate.
Qed.

Lemma NewAction_signaler_end_blocks_witness :
  ESelect <> EDone /\ SignalRun.SLoop <> SignalRun.SDone.
Proof.
  apply (NewAction_signaler_end_blocks [10%nat]
           [SignalRun.S_run; SignalRun.SE_call]
           {| SignalRun.sig := Signal.OnSignal [10%nat] Signal.zeroSignaler;
              SignalRun.pending := []; SignalRun.registered := true;
              SignalRun.sworker := SignalRun.SLoop; SignalRun.sstopper := ESelect;
              SignalRun.calls := 0; SignalRun.arrived := [] |} eq_refl).
Defined.

(** ** One shot and cutoff in every interleaving *)

Lemma one_shot_inv_step (l : label) (σ σ' : System) :
  one_shot_inv σ -> step l σ = Some σ' -> one_shot_inv σ'.
Proof.
  unfold one_shot_inv. intros (He & Hw). revert He Hw.
  step_cases l σ; intros He Hw; try rewrite He; simpl; solve_step; simpl;
    try (split; [exact He|]); try exact Hw; try (rewrite Hw; simpl; lia);
    try contradiction.
Qed.

(** X20. A schedule without an interval is a one shot on every clock and
    in every interleaving: the callback is invoked at most once. *)
Theorem one_shot_fires_at_most_once (s : Scheduler) (now : Time)
  (ls : list label) (σ : System) :
  every s = 0 ->
  run ls (go_start s now) = Some σ ->
  (List.length (fired σ) <= 1)%nat.
Proof.
  intros He Hrun.
  apply (run_invariant one_shot_inv one_shot_inv_step ls _ _) in Hrun.
  - destruct Hrun as (_ & Hw).
    destruct (worker σ); try (rewrite Hw; simpl; lia); try exact Hw; contradiction.
  - unfold one_shot_inv; simpl. auto.
Qed.

Lemma one_shot_fires_at_most_once_witness :
  (List.length [7] <= 1)%nat.
Proof.
  apply (one_shot_fires_at_most_once (At 7 newScheduler) 0
           [W_run; Tick 7; W_timer; W_run]
           {| sched := At 7 newScheduler; clock := 7; worker := WDefer;
              stopper := EIdle; fired := [7] |} eq_refl eq_refl).
Defined.



